(** * Key-sequence interpreter of vscode-modal-editor (src/keybindings.ts)

    A shallow embedding of [getFromKeymap], [isNum] and the class
    [KeyEventHandler] (fields, [statusBarPrefix], [setKeys], [updateStatus],
    [handle], [reset]), followed by the properties stated about them.

    Also embedded, for the further properties at the end: [clear], the
    first revision of the class (one cursor, no count), [defaultKeybindings]
    of config.ts, and from the extension the string functions of the preset
    import ([expandHome], the name filter of [importPreset], the text
    [loadKeybindings] evaluates).

    Conventions of the embedding.
    - A JS object used as a [Keymap] is a finite map [gmap string Value] over
      its own properties; [key in keymap] is [is_Some (keymap !! key)] and
      [keymap[key]] is the lookup.  Properties inherited from
      [Object.prototype] are outside the model: none of them has a name of
      length zero or one, and none of them passes [isCommand].
    - A JS string is a [string]; the digits, the newline and the double quote
      used by the code are ASCII, which is all the code inspects.
    - The mutable handler object is the record [Handler]; a method is a
      computation in the state-and-exception monad [M], so that a thrown
      [KeyError] carries the handler as it is at the [throw]. *)

From stdpp Require Import base option strings gmap.
From Stdlib Require Import Ascii String List Bool Arith Lia.
Import ListNotations.

Local Open Scope string_scope.
Set Warnings "-register-all".

(** ** Data model *)

(** Modelled from the spec: the type [Command] of actions.ts, which is not
    among the sources at hand.  The spec and the README give it three shapes:
    a host-command identifier, an ordered list of identifiers, or an object
    [{ command, args?, when? }] ([args] is an opaque payload, kept here as
    its text). *)
Inductive Command : Type :=
  | CmdId (id : string)
  | CmdList (ids : list string)
  | CmdComplex (command : string) (args : option string) (when : option string).

(** [Keymap | Command]: what a key of a keymap is bound to. *)
Inductive Value : Type :=
  | VCommand (c : Command)
  | VKeymap (m : gmap string Value).

Abbreviation Keymap := (gmap string Value).

(** Modelled from the spec: [isCommand] of actions.guard.ts, generated by
    ts-auto-guard and not among the sources at hand.  The spec describes a
    keymap entry as either a sub-keymap or a leaf Command, and the guard
    tells the two apart.  The generated guard inspects the shape of the
    object; a keymap that also has the shape of a complex command (a key
    named [command] bound to a string) is outside the model. *)
Definition isCommand (v : Value) : bool :=
  match v with
  | VCommand _ => true
  | VKeymap _ => false
  end.

(** JS truthiness of a [Keymap | Command]: objects and arrays (also the empty
    ones) are truthy, a string is truthy unless it is empty. *)
Definition truthy (v : Value) : bool :=
  match v with
  | VCommand (CmdId id) => negb (String.eqb id EmptyString)
  | VCommand _ => true
  | VKeymap _ => true
  end.

(** [if (value)] on a [Keymap | Command | undefined]. *)
Definition truthy_opt (o : option Value) : bool :=
  match o with
  | Some v => truthy v
  | None => false
  end.

(** The wildcard key. *)
Definition wildcard : string := EmptyString.

Definition getFromKeymap (keymap : option Keymap) (key : string) : option Value :=
  match keymap with
  | Some km =>
      match km !! key with
      | Some v => Some v
      | None =>
          match km !! wildcard with
          | Some w => Some w
          | None => None
          end
      end
  | None => None
  end.

(** [/^[1-9]$/] when [isFirst], [/^\d$/] otherwise: exactly one character,
    an ASCII digit (without the [m] flag [$] matches at the end only). *)
Definition isNum (key : string) (isFirst : bool) : bool :=
  match key with
  | String c EmptyString =>
      let n := nat_of_ascii c in
      if isFirst then (49 <=? n)%nat && (n <=? 57)%nat
      else (48 <=? n)%nat && (n <=? 57)%nat
  | _ => false
  end.

(** ** The handler object and its methods *)

(** [{ command, keys }], the value [handle] returns on a resolution. *)
Record Action : Type := mkAction {
  command : Command;
  action_keys : string
}.

(** Modelled from the spec: [KeyError] of error.ts, which is not among the
    sources at hand; a failure that carries a message. *)
Inductive KeyError : Type :=
  | mkKeyError (message : string).

(** The fields of [KeyEventHandler].  Of the status bar item only its [text]
    is ever touched; [keyStatusBar] is that text. *)
Record Handler : Type := mkHandler {
  keyStatusBar : string;
  keymap : option Keymap;
  commonKeymap : option Keymap;
  commandMode : bool;
  currentKeymap : option Keymap;
  currentCommonKeymap : option Keymap;
  keys : string;
  count : string;
  parsingCount : bool
}.

Definition set_keyStatusBar (t : string) (h : Handler) : Handler :=
  mkHandler t (keymap h) (commonKeymap h) (commandMode h) (currentKeymap h)
            (currentCommonKeymap h) (keys h) (count h) (parsingCount h).

Definition set_currentKeymap (m : option Keymap) (h : Handler) : Handler :=
  mkHandler (keyStatusBar h) (keymap h) (commonKeymap h) (commandMode h) m
            (currentCommonKeymap h) (keys h) (count h) (parsingCount h).

Definition set_currentCommonKeymap (m : option Keymap) (h : Handler) : Handler :=
  mkHandler (keyStatusBar h) (keymap h) (commonKeymap h) (commandMode h)
            (currentKeymap h) m (keys h) (count h) (parsingCount h).

Definition set_keys (ks : string) (h : Handler) : Handler :=
  mkHandler (keyStatusBar h) (keymap h) (commonKeymap h) (commandMode h)
            (currentKeymap h) (currentCommonKeymap h) ks (count h) (parsingCount h).

Definition set_count (c : string) (h : Handler) : Handler :=
  mkHandler (keyStatusBar h) (keymap h) (commonKeymap h) (commandMode h)
            (currentKeymap h) (currentCommonKeymap h) (keys h) c (parsingCount h).

Definition set_parsingCount (b : bool) (h : Handler) : Handler :=
  mkHandler (keyStatusBar h) (keymap h) (commonKeymap h) (commandMode h)
            (currentKeymap h) (currentCommonKeymap h) (keys h) (count h) b.

(** A method body: it reads and writes the handler and either returns a
    value or throws a [KeyError]; the handler that comes with a [Throw] is the
    one left behind at the [throw] statement. *)
Inductive Result (A : Type) : Type :=
  | Ret (a : A)
  | Throw (e : KeyError).

Arguments Ret {A} a.
Arguments Throw {A} e.

Definition M (A : Type) : Type := Handler -> Result A * Handler.

Definition ret {A : Type} (a : A) : M A := fun h => (Ret a, h).

Definition throw {A : Type} (e : KeyError) : M A := fun h => (Throw e, h).

Definition bind {A B : Type} (m : M A) (f : A -> M B) : M B :=
  fun h =>
    match m h with
    | (Ret a, h') => f a h'
    | (Throw e, h') => (Throw e, h')
    end.

Definition this : M Handler := fun h => (Ret h, h).

Definition assign (f : Handler -> Handler) : M unit := fun h => (Ret tt, f h).

Declare Scope method_scope.
Delimit Scope method_scope with method.
Notation "x <- m ;; k" := (bind m (fun x => k))
  (at level 100, m at next level, right associativity) : method_scope.
Notation "m ;; k" := (bind m (fun _ => k))
  (at level 100, right associativity) : method_scope.

(** [if (value) { thn } else { els }] for a [Keymap | Command | undefined]:
    inside [thn] the value is defined. *)
Definition ifTruthy {A : Type} (value : option Value)
    (thn : Value -> M A) (els : M A) : M A :=
  match value with
  | Some v => if truthy v then thn v else els
  | None => els
  end.

Definition statusBarPrefix (h : Handler) : string :=
  if commandMode h then ":" else EmptyString.

Definition updateStatus : M unit :=
  assign (fun h => set_keyStatusBar (statusBarPrefix h ++ count h ++ keys h) h).

Definition setKeys (ks : string) : M unit :=
  (assign (set_keys ks) ;;
   updateStatus)%method.

Definition reset : M unit :=
  (assign (fun h => set_currentKeymap (keymap h) h) ;;
   assign (fun h => set_currentCommonKeymap (commonKeymap h) h) ;;
   assign (set_count EmptyString) ;;
   assign (set_parsingCount true) ;;
   setKeys EmptyString)%method.

Definition newline : string := String (ascii_of_nat 10) EmptyString.

Definition dquote : string := String (ascii_of_nat 34) EmptyString.

Definition undefinedCommand (ks : string) : KeyError :=
  mkKeyError ("undefined command: " ++ dquote ++ ks ++ dquote).

Definition undefinedKeySequence (ks : string) : KeyError :=
  mkKeyError ("undefined key sequence: " ++ dquote ++ ks ++ dquote).

(** [handle(key)].  [ret None] is the bare [return;] (nothing resolved yet);
    where the source narrows [value] with [isCommand], the embedding matches
    on the constructor of [Value] (see [isCommand_spec]). *)
Definition handle (key : string) : M (option Action) :=
  (h <- this ;;
   if parsingCount h && negb (commandMode h)
      && isNum key (Nat.eqb (String.length (count h)) 0)
   then
     assign (fun h => set_count (count h ++ key) h) ;;
     updateStatus ;;
     ret None
   else
     assign (set_parsingCount false) ;;
     h <- this ;;
     setKeys (keys h ++ key) ;;
     h <- this ;;
     if commandMode h then
       (* Command mode: handle keys only until newline characters *)
       if negb (String.eqb key newline) then ret None
       else
         let ks := substring 0 (String.length (keys h) - 1) (keys h) in
         match keymap h ≫= (fun km => km !! ks) with
         | Some (VCommand value) =>
             reset ;;
             ret (Some (mkAction value ks))
         | _ =>
             reset ;;
             throw (undefinedCommand ks)
         end
     else
       (* Other modes: try currentKeymap first *)
       ifTruthy (getFromKeymap (currentKeymap h) key)
         (fun value =>
            match value with
            | VCommand c =>
                h <- this ;;
                let ks := keys h in
                reset ;;
                ret (Some (mkAction c ks))
            | VKeymap sub =>
                assign (set_currentKeymap (Some sub)) ;;
                h <- this ;;
                ifTruthy (getFromKeymap (currentCommonKeymap h) key)
                  (fun value =>
                     match value with
                     | VKeymap csub => assign (set_currentCommonKeymap (Some csub))
                     | VCommand _ => ret tt
                     end)
                  (assign (set_currentCommonKeymap None)) ;;
                ret None
            end)
         (* currentCommonKeymap as a fallback *)
         (h <- this ;;
          ifTruthy (getFromKeymap (currentCommonKeymap h) key)
            (fun value =>
               match value with
               | VCommand c =>
                   h <- this ;;
                   let ks := keys h in
                   reset ;;
                   ret (Some (mkAction c ks))
               | VKeymap csub =>
                   assign (set_currentKeymap None) ;;
                   assign (set_currentCommonKeymap (Some csub)) ;;
                   ret None
               end)
            (h <- this ;;
             let ks := keys h in
             reset ;;
             throw (undefinedKeySequence ks))))%method.

(** [new KeyEventHandler(keyStatusBar, keymap, commonKeymap, commandMode)]:
    the parameter properties are stored, the other fields are not yet
    assigned (their values here are placeholders, see [new_placeholders]),
    and the constructor calls [reset]. *)
Definition new (keyStatusBar : string) (keymap commonKeymap : option Keymap)
    (commandMode : bool) : Handler :=
  snd (reset (mkHandler keyStatusBar keymap commonKeymap commandMode
                        None None EmptyString EmptyString false)).

(** ** Driving the handler with a sequence of keys *)

(** What a caller of [handle] sees. *)
Inductive Outcome : Type :=
  | Pending
  | Resolved (a : Action)
  | Failed (e : KeyError).

Definition outcome (r : Result (option Action)) : Outcome :=
  match r with
  | Ret None => Pending
  | Ret (Some a) => Resolved a
  | Throw e => Failed e
  end.

(** One key after the other on the same handler object; a thrown [KeyError]
    is caught by the caller and the handler is used on. *)
Fixpoint run (ks : list string) (h : Handler) : list Outcome * Handler :=
  match ks with
  | [] => ([], h)
  | k :: ks' =>
      let (r, h') := handle k h in
      let (os, h'') := run ks' h' in
      (outcome r :: os, h'')
  end.

(** ** Vocabulary of the statements *)

(** The guard of the first [if] of [handle]: the key is taken as a digit of
    the count prefix. *)
Definition isCountDigit (key : string) (h : Handler) : bool :=
  parsingCount h && negb (commandMode h)
  && isNum key (Nat.eqb (String.length (count h)) 0).

(** A lookup that passes [if (value)]. *)
Definition resolve (m : option Keymap) (key : string) : option Value :=
  match getFromKeymap m key with
  | Some v => if truthy v then Some v else None
  | None => None
  end.

(** The handler after [reset()]. *)
Definition fresh (h : Handler) : Handler :=
  mkHandler (statusBarPrefix h) (keymap h) (commonKeymap h) (commandMode h)
            (keymap h) (commonKeymap h) EmptyString EmptyString true.

(** The handler after a digit went into the count. *)
Definition counted (key : string) (h : Handler) : Handler :=
  mkHandler (statusBarPrefix h ++ (count h ++ key) ++ keys h)
            (keymap h) (commonKeymap h) (commandMode h)
            (currentKeymap h) (currentCommonKeymap h)
            (keys h) (count h ++ key) (parsingCount h).

(** The handler after [parsingCount = false; setKeys(keys + key)]. *)
Definition typed (key : string) (h : Handler) : Handler :=
  mkHandler (statusBarPrefix h ++ count h ++ (keys h ++ key))
            (keymap h) (commonKeymap h) (commandMode h)
            (currentKeymap h) (currentCommonKeymap h)
            (keys h ++ key) (count h) false.

(** Where the common cursor is left when the mode cursor descends. *)
Definition followCommon (h : Handler) (key : string) : option Keymap :=
  match resolve (currentCommonKeymap h) key with
  | Some (VKeymap csub) => Some csub
  | Some (VCommand _) => currentCommonKeymap h
  | None => None
  end.

(** [handle] in direct style: the result and the handler left behind, case
    by case ([handle_eq] proves it equal to the method). *)
Definition handle_cases (key : string) (h : Handler)
    : Result (option Action) * Handler :=
  if isCountDigit key h then (Ret None, counted key h)
  else if commandMode h then
    if String.eqb key newline then
      match keymap h ≫= (fun km => km !! keys h) with
      | Some (VCommand c) => (Ret (Some (mkAction c (keys h))), fresh h)
      | _ => (Throw (undefinedCommand (keys h)), fresh h)
      end
    else (Ret None, typed key h)
  else
    match resolve (currentKeymap h) key with
    | Some (VCommand c) => (Ret (Some (mkAction c (keys h ++ key))), fresh h)
    | Some (VKeymap sub) =>
        (Ret None,
         set_currentCommonKeymap (followCommon h key)
           (set_currentKeymap (Some sub) (typed key h)))
    | None =>
        match resolve (currentCommonKeymap h) key with
        | Some (VCommand c) => (Ret (Some (mkAction c (keys h ++ key))), fresh h)
        | Some (VKeymap csub) =>
            (Ret None,
             set_currentCommonKeymap (Some csub)
               (set_currentKeymap None (typed key h)))
        | None => (Throw (undefinedKeySequence (keys h ++ key)), fresh h)
        end
    end.

(** The digits as the spec lists them: 1-9 in first position, 0-9 after. *)
Definition digits19 : list string :=
  ["1"; "2"; "3"; "4"; "5"; "6"; "7"; "8"; "9"].

Definition digits09 : list string := "0" :: digits19.

Definition validDigit (key : string) (count : string) : Prop :=
  In key (if String.eqb count EmptyString then digits19 else digits09).

(** [n] rounds of the same keys, each begun by [reset()]: the outcomes of
    every round. *)
Fixpoint rounds (n : nat) (ks : list string) (h : Handler)
    : list (list Outcome) :=
  match n with
  | O => []
  | S n' =>
      let (os, h') := run ks (snd (reset h)) in
      os :: rounds n' ks h'
  end.

(** [handle] and [reset] never write the constructor's parameters. *)
Definition sameConfig (h1 h2 : Handler) : Prop :=
  keymap h1 = keymap h2 /\ commonKeymap h1 = commonKeymap h2
  /\ commandMode h1 = commandMode h2.

(** The text [updateStatus] writes. *)
Definition statusText (h : Handler) : string :=
  statusBarPrefix h ++ count h ++ keys h.

(** ** Keymaps of the examples *)

(** The keymaps of the divergence example: mode [{a: {b: "cmd1"}}], common
    [{a: {c: "cmd2"}}]. *)
Definition divergeMode : Keymap :=
  {[ "a" := VKeymap {[ "b" := VCommand (CmdId "cmd1") ]} ]}.

Definition divergeCommon : Keymap :=
  {[ "a" := VKeymap {[ "c" := VCommand (CmdId "cmd2") ]} ]}.

(** Keymaps on which the common cursor is left behind: the mode keymap
    [{a: {b: "cmd1"}}], the common keymap [{a: "cmdX", c: "cmdY"}]. *)
Definition staleCommon : Keymap :=
  {[ "a" := VCommand (CmdId "cmdX"); "c" := VCommand (CmdId "cmdY") ]}.

(** The keymap of the command-line example, [{wq: "saveAndClose"}], and a
    nested keymap with the same letters, [{w: {q: "saveAndClose"}}]. *)
Definition exKeymap : Keymap := {[ "wq" := VCommand (CmdId "saveAndClose") ]}.

Definition exNested : Keymap :=
  {[ "w" := VKeymap {[ "q" := VCommand (CmdId "saveAndClose") ]} ]}.

(** ** The remaining methods, and sequences of calls *)

(** [clear()]. *)
Definition clear : M unit :=
  assign (fun h => set_currentKeymap (keymap h) h).

(** A call of one of the public methods that write the handler. *)
Inductive Call : Type :=
  | CallHandle (key : string)
  | CallSetKeys (ks : string)
  | CallUpdateStatus
  | CallReset
  | CallClear.

(** The handler after the call; an error thrown by [handle] is caught by
    the caller. *)
Definition call (c : Call) (h : Handler) : Handler :=
  match c with
  | CallHandle key => snd (handle key h)
  | CallSetKeys ks => snd (setKeys ks h)
  | CallUpdateStatus => snd (updateStatus h)
  | CallReset => snd (reset h)
  | CallClear => snd (clear h)
  end.

Fixpoint calls (cs : list Call) (h : Handler) : Handler :=
  match cs with
  | [] => h
  | c :: cs' => calls cs' (call c h)
  end.

(** ** Vocabulary of the further statements *)

Definition isDigit (c : ascii) : bool :=
  (48 <=? nat_of_ascii c)%nat && (nat_of_ascii c <=? 57)%nat.

Definition isNonZeroDigit (c : ascii) : bool :=
  (49 <=? nat_of_ascii c)%nat && (nat_of_ascii c <=? 57)%nat.

Fixpoint allDigits (s : string) : bool :=
  match s with
  | EmptyString => true
  | String c s' => isDigit c && allDigits s'
  end.

(** A count prefix as a reader of [count] expects it: empty, or a decimal
    numeral that does not begin with a zero. *)
Definition isCountText (s : string) : bool :=
  match s with
  | EmptyString => true
  | String c s' => isNonZeroDigit c && allDigits s'
  end.

(** The keys of a sequence, one after the other, as [keys] collects them. *)
Fixpoint concatKeys (ks : list string) : string :=
  match ks with
  | [] => EmptyString
  | k :: ks' => k ++ concatKeys ks'
  end.


(** The nesting depth of a binding: 0 for a command, one more than its
    deepest binding for a keymap. *)
Fixpoint depth (v : Value) : nat :=
  match v with
  | VCommand _ => 0
  | VKeymap m => S (map_fold (fun _ v acc => Nat.max (depth v) acc) 0 m)
  end.

(** How many levels of sub-keymaps lie below a cursor: none below a keymap
    that binds commands only, none below an absent one. *)
Definition cursorDepth (m : option Keymap) : nat :=
  match m with
  | Some km => Nat.pred (depth (VKeymap km))
  | None => 0
  end.

(** The handler with the parts of the mode keymap and of the common keymap
    exchanged. *)
Definition swapRoles (h : Handler) : Handler :=
  mkHandler (keyStatusBar h) (commonKeymap h) (keymap h) (commandMode h)
            (currentCommonKeymap h) (currentKeymap h)
            (keys h) (count h) (parsingCount h).

(** What an outcome decides, apart from the keys reported with it. *)
Inductive Verdict : Type :=
  | StillPending
  | Runs (c : Command)
  | Fails.

Definition verdict (o : Outcome) : Verdict :=
  match o with
  | Pending => StillPending
  | Resolved a => Runs (command a)
  | Failed _ => Fails
  end.

(** Whether the outcome ends the sequence. *)
Definition isTerminal (o : Outcome) : bool :=
  match o with
  | Pending => false
  | _ => true
  end.

(** What every call keeps true of the handler: the text on display, the
    shape of the count, the cursors while the count is still parsed, and the
    empty count of command mode. *)
Definition handlerInvariant (h : Handler) : Prop :=
  keyStatusBar h = statusText h
  /\ isCountText (count h) = true
  /\ (parsingCount h = true ->
      currentKeymap h = keymap h /\ currentCommonKeymap h = commonKeymap h)
  /\ (commandMode h = true -> count h = EmptyString).

(** Keys that are digits of a count, each valid at its position after the
    count [c]. *)
Fixpoint digitsFrom (c : string) (ds : list string) : Prop :=
  match ds with
  | [] => True
  | d :: ds' => validDigit d c /\ digitsFrom (c ++ d) ds'
  end.

(** The handler without its count and its status text. *)
Definition forgetCount (h : Handler) : Handler :=
  set_keyStatusBar EmptyString (set_count EmptyString h).

(** What the newline does to a command line: the command the root keymap
    binds to the whole line, or the failure that quotes the line. *)
Definition commandLineOutcome (km : option Keymap) (line : string) : Outcome :=
  match km ≫= (fun m => m !! line) with
  | Some (VCommand c) => Resolved (mkAction c line)
  | _ => Failed (undefinedCommand line)
  end.

(** The handler without its keys and its status text. *)
Definition forgetKeys (h : Handler) : Handler :=
  set_keyStatusBar EmptyString (set_keys EmptyString h).

(** ** Default configuration (config.ts) *)

(** [Keybindings]: the keymap of each mode that has one. *)
Abbreviation Keybindings := (gmap string Keymap).

(** [defaultKeybindings], the keybindings [readConfig] falls back to. *)
Definition defaultKeybindings : Keybindings :=
  {[ "normal" := ∅; "insert" := ∅ ]}.

(** A keymap that is absent or binds no key at all. *)
Definition bindsNothing (m : option Keymap) : Prop :=
  m = None \/ m = Some ∅.

(** ** Importing keybindings (extension.ts) *)

Definition tilde : ascii := ascii_of_nat 126.
Definition slash : ascii := ascii_of_nat 47.
Definition backslash : ascii := ascii_of_nat 92.
Definition dollar : ascii := ascii_of_nat 36.
Definition ampersand : ascii := ascii_of_nat 38.
Definition backtick : ascii := ascii_of_nat 96.
Definition apostrophe : ascii := ascii_of_nat 39.

Definition isPathSeparator (c : ascii) : bool :=
  Ascii.eqb c slash || Ascii.eqb c backslash.

(** The regex of [expandHome]: a tilde at the very start, with the end of
    the string, a slash or a backslash after it (looked at, not consumed).
    The result is what follows the tilde when the regex matches. *)
Definition matchTilde (filePath : string) : option string :=
  match filePath with
  | String c rest =>
      if Ascii.eqb c tilde then
        match rest with
        | EmptyString => Some rest
        | String d _ => if isPathSeparator d then Some rest else None
        end
      else None
  | EmptyString => None
  end.

(** What [String.prototype.replace] puts in for a match when the
    replacement is a string and the regex has no capture groups: two
    dollars give one, dollar-ampersand the match, dollar-backtick the text
    before it, dollar-apostrophe the text after it; every other character,
    a dollar before anything else included, stands for itself. *)
Fixpoint getSubstitution (matched before after replacement : string) : string :=
  match replacement with
  | EmptyString => EmptyString
  | String c r =>
      if Ascii.eqb c dollar then
        match r with
        | String d r' =>
            if Ascii.eqb d dollar then
              String dollar (getSubstitution matched before after r')
            else if Ascii.eqb d ampersand then
              matched ++ getSubstitution matched before after r'
            else if Ascii.eqb d backtick then
              before ++ getSubstitution matched before after r'
            else if Ascii.eqb d apostrophe then
              after ++ getSubstitution matched before after r'
            else String c (getSubstitution matched before after r)
        | EmptyString => String c EmptyString
        end
      else String c (getSubstitution matched before after r)
  end.

(** [expandHome(filePath)], with [home] the result of [os.homedir()]. *)
Definition expandHome (home filePath : string) : string :=
  match matchTilde filePath with
  | Some rest =>
      getSubstitution (String tilde EmptyString) EmptyString rest home ++ rest
  | None => filePath
  end.

Fixpoint hasDollar (s : string) : bool :=
  match s with
  | EmptyString => false
  | String c s' => Ascii.eqb c dollar || hasDollar s'
  end.

(** [pat] occurs somewhere in [s]. *)
Fixpoint contains (pat s : string) : bool :=
  String.prefix pat s
  || match s with
     | EmptyString => false
     | String _ s' => contains pat s'
     end.

(** [s] ends with [suf]. *)
Fixpoint endsWith (suf s : string) : bool :=
  String.eqb s suf
  || match s with
     | EmptyString => false
     | String _ s' => endsWith suf s'
     end.

(** The regex of the filter in [importPreset], an alternation of two:
    a dot and js anywhere in the name, or json or jsonc at its end (the
    filter also asks that the entry is a file). *)
Definition isPresetName (name : string) : bool :=
  contains ".js" name || endsWith "json" name || endsWith "jsonc" name.

(** The regex of [loadKeybindings]: the path ends with json, json5 or
    jsonc. *)
Definition isJsonPath (fsPath : string) : bool :=
  endsWith "json" fsPath || endsWith "json5" fsPath || endsWith "jsonc" fsPath.

(** The text [loadKeybindings] hands to [eval] for the content [data] of
    the file at [fsPath]. *)
Definition evalText (fsPath data : string) : string :=
  if isJsonPath fsPath then "(" ++ data ++ ")" else data.

(** ** The first revision of the handler (keybindings.ts, second part) *)

(** The class [KeyEventHandler] as first written: one cursor, no count, no
    common keymap.  [currentKeymap] is an option because the assignment in
    [handle] can store [undefined] in it.  What [isCommand] answers on
    [undefined] is not settled by the sources at hand and is the parameter
    [isCommandUndefined]. *)
Module FirstRevision.

Record Handler : Type := mkHandler {
  keymap : Keymap;
  currentKeymap : option Keymap
}.

(** What a call of [handle] gives: the value returned ([None] for
    [undefined]) or the [TypeError] of indexing [undefined]. *)
Inductive Returned : Type :=
  | Returns (value : option Command)
  | TypeError.

Definition new (keymap : Keymap) : Handler := mkHandler keymap (Some keymap).

Definition handle (isCommandUndefined : bool) (key : string) (h : Handler)
    : Returned * Handler :=
  match keymap h !! key with
  | Some _ =>
      match currentKeymap h with
      | Some cur =>
          match cur !! key with
          | Some (VCommand c) => (Returns (Some c), h)
          | Some (VKeymap sub) =>
              (Returns None, mkHandler (keymap h) (Some sub))
          | None =>
              if isCommandUndefined then (Returns None, h)
              else (Returns None, mkHandler (keymap h) None)
          end
      | None => (TypeError, h)
      end
  | None => (Returns None, h)
  end.

Definition clear (h : Handler) : Handler :=
  mkHandler (keymap h) (Some (keymap h)).

Fixpoint run (isCommandUndefined : bool) (ks : list string) (h : Handler)
    : list Returned * Handler :=
  match ks with
  | [] => ([], h)
  | k :: ks' =>
      let (r, h') := handle isCommandUndefined k h in
      let (rs, h'') := run isCommandUndefined ks' h' in
      (r :: rs, h'')
  end.

End FirstRevision.

(** ** Keys that no object inherits *)

(** Modelled from the language's documentation: the names of the properties
    that every object inherits from [Object.prototype].  The [in] of the
    source finds them in every keymap, the empty one included, while the
    lookups of the embedding read the own properties of a keymap; on every
    other key, and so on every key of at most one character, the two
    agree. *)
Definition objectPrototypeNames : list string :=
  ["constructor"; "__defineGetter__"; "__defineSetter__"; "hasOwnProperty";
   "__lookupGetter__"; "__lookupSetter__"; "isPrototypeOf";
   "propertyIsEnumerable"; "toString"; "valueOf"; "__proto__";
   "toLocaleString"].

(** The name is none of those. *)
Definition isOwnName (k : string) : bool :=
  negb (existsb (String.eqb k) objectPrototypeNames).

(** ** Basic facts *)

Lemma isCommand_spec (v : Value) :
  isCommand v = true <-> exists c, v = VCommand c.
Proof.
  destruct v as [c|m]; simpl; split; intros H.
  - exists c; reflexivity.
  - reflexivity.
  - discriminate.
  - destruct H as [c H]; discriminate.
Qed.

Lemma truthy_false_inv (v : Value) :
  truthy v = false -> v = VCommand (CmdId EmptyString).
Proof.
  destruct v as [[id|ids|c a w]|m]; simpl; try discriminate.
  destruct id; simpl; [reflexivity | discriminate].
Qed.

Lemma resolve_truthy (m : option Keymap) (key : string) (v : Value) :
  resolve m key = Some v <-> getFromKeymap m key = Some v /\ truthy v = true.
Proof.
  unfold resolve. destruct (getFromKeymap m key) as [w|].
  - destruct (truthy w) eqn:E; split.
    + intros [= ->]; auto.
    + intros [[= ->] _]; reflexivity.
    + discriminate.
    + intros [[= ->] H]; congruence.
  - split; [discriminate | intros [H _]; discriminate].
Qed.

Lemma resolve_bound (km : Keymap) (key : string) (v : Value) :
  km !! key = Some v -> truthy v = true -> resolve (Some km) key = Some v.
Proof.
  intros Hk Hv. apply resolve_truthy. split; [|exact Hv].
  unfold getFromKeymap. rewrite Hk. reflexivity.
Qed.

Lemma resolve_None (m : option Keymap) (key : string) :
  resolve m key = None <-> truthy_opt (getFromKeymap m key) = false.
Proof.
  unfold resolve, truthy_opt. destruct (getFromKeymap m key) as [w|].
  - destruct (truthy w); split; congruence.
  - split; reflexivity.
Qed.

Lemma string_app_cons (c : ascii) (s t : string) :
  String c s ++ t = String c (s ++ t).
Proof. reflexivity. Qed.

Lemma length_app_char (s : string) (c : ascii) :
  String.length (s ++ String c EmptyString) = S (String.length s).
Proof.
  induction s as [|d s IH]; [reflexivity|].
  rewrite string_app_cons. simpl. rewrite IH. reflexivity.
Qed.

(** [keys.substring(0, keys.length-1)] drops the character typed last. *)
Lemma substring_drop_last (s : string) (c : ascii) :
  substring 0 (String.length (s ++ String c EmptyString) - 1)
            (s ++ String c EmptyString) = s.
Proof.
  rewrite length_app_char. replace (S (String.length s) - 1) with (String.length s) by lia.
  induction s as [|d s IH]; [reflexivity|].
  rewrite string_app_cons. simpl. rewrite IH. reflexivity.
Qed.

Lemma reset_eq (h : Handler) : reset h = (Ret tt, fresh h).
Proof. destruct h as [t km ckm [|] cur ccur ks c pc]; reflexivity. Qed.

Lemma new_eq (t : string) (km ckm : option Keymap) (cm : bool) :
  new t km ckm cm =
  mkHandler (if cm then ":" else EmptyString) km ckm cm km ckm
            EmptyString EmptyString true.
Proof. unfold new. rewrite reset_eq. reflexivity. Qed.

(** The constructor's result does not depend on what the fields held
    before [reset] assigned them. *)
Lemma new_placeholders (t : string) (km ckm : option Keymap) (cm : bool)
    (cur ccur : option Keymap) (ks c : string) (pc : bool) :
  snd (reset (mkHandler t km ckm cm cur ccur ks c pc)) = new t km ckm cm.
Proof. rewrite new_eq, reset_eq. reflexivity. Qed.

(** The method and its case-by-case form agree on every key and handler. *)
Lemma handle_eq (key : string) (h : Handler) : handle key h = handle_cases key h.
Proof.
  destruct h as [t km ckm cm cur ccur ks c pc].
  unfold handle, handle_cases, isCountDigit, bind, this. simpl.
  destruct (pc && negb cm && isNum key (Nat.eqb (String.length c) 0));
    [reflexivity|].
  unfold setKeys, updateStatus, bind, assign. simpl.
  destruct cm.
  - destruct (String.eqb key newline) eqn:Hnl; simpl; [|reflexivity].
    apply String.eqb_eq in Hnl. subst key. unfold newline.
    rewrite substring_drop_last.
    destruct (km ≫= (fun km => km !! ks)) as [[v|m]|]; reflexivity.
  - unfold ifTruthy, followCommon, resolve. simpl.
    destruct (getFromKeymap cur key) as [[v|sub]|];
      [destruct (truthy (VCommand v))| |]; simpl;
      try reflexivity;
      destruct (getFromKeymap ccur key) as [[w|csub]|];
      try destruct (truthy (VCommand w)); reflexivity.
Qed.

(** Every path through [handle]: the count digit, the two of command mode
    on a newline and the one on another key, and the three by three of the
    two lookups. *)
Ltac handle_paths key h :=
  rewrite ?handle_eq; unfold handle_cases;
  destruct (isCountDigit key h) eqn:?;
  [ | destruct (commandMode h) eqn:?;
      [ destruct (String.eqb key newline) eqn:?;
        [ destruct (keymap h ≫= (fun km => km !! keys h)) as [[?|?]|] eqn:? | ]
      | destruct (resolve (currentKeymap h) key) as [[?|?]|] eqn:?;
        [ | | destruct (resolve (currentCommonKeymap h) key) as [[?|?]|] eqn:? ]
      ] ].

(** [isNum] accepts exactly the digits the spec lists. *)
Lemma isNum_first (key : string) : isNum key true = true <-> In key digits19.
Proof.
  split.
  - destruct key as [|c [|d s]]; simpl; try discriminate.
    destruct c as [[] [] [] [] [] [] [] []]; simpl; intros H;
      try discriminate H; tauto.
  - unfold digits19. simpl.
    intros H; repeat (destruct H as [<-|H]; [reflexivity|]); destruct H.
Qed.

Lemma isNum_later (key : string) : isNum key false = true <-> In key digits09.
Proof.
  split.
  - destruct key as [|c [|d s]]; simpl; try discriminate.
    destruct c as [[] [] [] [] [] [] [] []]; simpl; intros H;
      try discriminate H; tauto.
  - unfold digits09, digits19. simpl.
    intros H; repeat (destruct H as [<-|H]; [reflexivity|]); destruct H.
Qed.

Lemma length_zero_iff_empty (s : string) :
  Nat.eqb (String.length s) 0 = String.eqb s EmptyString.
Proof. destruct s; reflexivity. Qed.

Lemma isNum_validDigit (key count : string) :
  isNum key (Nat.eqb (String.length count) 0) = true <-> validDigit key count.
Proof.
  unfold validDigit. rewrite length_zero_iff_empty.
  destruct (String.eqb count EmptyString);
    [apply isNum_first | apply isNum_later].
Qed.

Lemma handle_sameConfig (key : string) (h : Handler) :
  sameConfig (snd (handle key h)) h.
Proof.
  handle_paths key h; unfold sameConfig; simpl; auto.
Qed.

Lemma run_sameConfig (ks : list string) (h : Handler) :
  sameConfig (snd (run ks h)) h.
Proof.
  revert h. induction ks as [|k ks IH]; intros h; simpl.
  - unfold sameConfig; auto.
  - pose proof (handle_sameConfig k h) as Hk.
    destruct (handle k h) as [r h1]. simpl in Hk.
    specialize (IH h1). destruct (run ks h1) as [os h2]. simpl in *.
    unfold sameConfig in *. intuition congruence.
Qed.

Lemma fresh_sameConfig (h1 h2 : Handler) :
  sameConfig h1 h2 -> fresh h1 = fresh h2.
Proof.
  intros (Hk & Hc & Hm). unfold fresh, statusBarPrefix.
  rewrite Hk, Hc, Hm. reflexivity.
Qed.

Lemma fresh_new (t : string) (h : Handler) :
  fresh h = new t (keymap h) (commonKeymap h) (commandMode h).
Proof. rewrite new_eq. reflexivity. Qed.

(** Whatever ends a sequence leaves the handler as [reset()] leaves it. *)
Lemma handle_terminal_fresh (key : string) (h : Handler) :
  fst (handle key h) <> Ret None -> snd (handle key h) = fresh h.
Proof.
  handle_paths key h; simpl; congruence.
Qed.

(** ** Keymap lookup *)

(** C4.  [getFromKeymap] gives the binding of the exact key when the keymap
    has that key, otherwise the binding of the wildcard key (the empty
    string) when the keymap has one, otherwise nothing; an absent keymap
    gives nothing.  In the keymap with exactly the keys ["a"] and the
    wildcard, ["a"] gives the exact binding and every other key the
    wildcard binding.  The lookup is a function of its two arguments alone:
    it lives outside the method monad and reads no handler. *)
Theorem C4_getFromKeymap_exact_then_wildcard
    (km : Keymap) (key : string) (v va vw : Value) :
  getFromKeymap None key = None
  /\ (km !! key = Some v -> getFromKeymap (Some km) key = Some v)
  /\ (km !! key = None -> getFromKeymap (Some km) key = km !! wildcard)
  /\ (km !! key = None -> km !! wildcard = None ->
      getFromKeymap (Some km) key = None)
  /\ (km !! "a" = Some va -> km !! wildcard = Some vw ->
      getFromKeymap (Some km) "a" = Some va
      /\ (km !! key = None -> getFromKeymap (Some km) key = Some vw))
  /\ getFromKeymap (Some {[ "a" := va; wildcard := vw ]}) "a" = Some va
  /\ (key <> "a" ->
      getFromKeymap (Some {[ "a" := va; wildcard := vw ]}) key = Some vw).
Proof.
  unfold getFromKeymap. repeat apply conj.
  - reflexivity.
  - intros ->. reflexivity.
  - intros ->. destruct (km !! wildcard); reflexivity.
  - intros -> ->. reflexivity.
  - intros Ha Hw. rewrite Ha, Hw. split; [reflexivity|].
    intros ->. reflexivity.
  - rewrite lookup_insert_eq. reflexivity.
  - intros Hne. rewrite lookup_insert_ne by congruence.
    destruct (decide (key = wildcard)) as [->|Hw].
    + rewrite lookup_singleton_eq. reflexivity.
    + rewrite lookup_singleton_ne by congruence.
      rewrite lookup_insert_ne by (unfold wildcard; discriminate).
      rewrite lookup_singleton_eq. reflexivity.
Qed.

Lemma C4_getFromKeymap_witness :
  let km : Keymap :=
    {[ "a" := VCommand (CmdId "exact"); wildcard := VCommand (CmdId "any") ]} in
  getFromKeymap (Some km) "a" = Some (VCommand (CmdId "exact"))
  /\ getFromKeymap (Some km) "z" = Some (VCommand (CmdId "any"))
  /\ getFromKeymap (Some ({[ "b" := VCommand (CmdId "other") ]} : Keymap)) "z"
     = None.
Proof.
  intros km.
  pose proof (C4_getFromKeymap_exact_then_wildcard km "a"
                (VCommand (CmdId "exact")) (VCommand (CmdId "exact"))
                (VCommand (CmdId "any"))) as (_ & Hexact & _).
  pose proof (C4_getFromKeymap_exact_then_wildcard km "z"
                (VCommand (CmdId "exact")) (VCommand (CmdId "exact"))
                (VCommand (CmdId "any"))) as (_ & _ & _ & _ & Hboth & _ & Hother).
  pose proof (C4_getFromKeymap_exact_then_wildcard
                ({[ "b" := VCommand (CmdId "other") ]} : Keymap) "z"
                (VCommand (CmdId "exact")) (VCommand (CmdId "exact"))
                (VCommand (CmdId "any"))) as (_ & _ & Hwild & Hnone & _).
  split; [|split].
  - apply Hexact. vm_compute. reflexivity.
  - apply Hother. discriminate.
  - apply Hnone; vm_compute; reflexivity.
Defined.

(** ** Descent with two cursors *)

(** C7.  With mode keymap [{a: {b: "cmd1"}}] and common keymap
    [{a: {c: "cmd2"}}], a fresh handler outside command mode stays pending on
    ["a"]; a following ["c"] resolves to [cmd2] and a following ["b"]
    resolves to [cmd1]; either way the handler is back in its fresh state. *)
Theorem C7_divergence_example (t : string) :
  let h := new t (Some divergeMode) (Some divergeCommon) false in
  run ["a"; "c"] h = ([Pending; Resolved (mkAction (CmdId "cmd2") "ac")], h)
  /\ run ["a"; "b"] h = ([Pending; Resolved (mkAction (CmdId "cmd1") "ab")], h).
Proof. split; vm_compute; reflexivity. Qed.

(** A key bound to a sub-keymap under the mode cursor: the mode cursor
    descends, and the common cursor descends with it, is cleared, or, when
    the common keymap binds the key to a command, stays where it was. *)
Lemma handle_descend (key : string) (h : Handler) (sub : Keymap) :
  commandMode h = false ->
  isCountDigit key h = false ->
  getFromKeymap (currentKeymap h) key = Some (VKeymap sub) ->
  handle key h =
  (Ret None,
   set_currentCommonKeymap (followCommon h key)
     (set_currentKeymap (Some sub) (typed key h))).
Proof.
  intros Hcm Hd Hv. rewrite handle_eq. unfold handle_cases.
  rewrite Hd, Hcm.
  assert (resolve (currentKeymap h) key = Some (VKeymap sub)) as ->
    by (apply resolve_truthy; auto).
  reflexivity.
Qed.

(** C1.  The code at the input where it departs from the claim: ["a"] is a
    sub-keymap under the mode cursor and a command under the common cursor.
    The call is pending and the mode cursor descends, but the common cursor
    is neither moved nor cleared: it still is the common root.  The next key
    ["c"], unbound below ["a"] in the mode keymap, is then found at the
    common root, and the sequence ["ac"], bound nowhere, resolves. *)
Theorem C1_common_cursor_left_behind :
  let h := new EmptyString (Some divergeMode) (Some staleCommon) false in
  let h' := snd (handle "a" h) in
  commandMode h = false
  /\ isCountDigit "a" h = false
  /\ getFromKeymap (currentKeymap h) "a"
     = Some (VKeymap {[ "b" := VCommand (CmdId "cmd1") ]})
  /\ getFromKeymap (currentCommonKeymap h) "a" = Some (VCommand (CmdId "cmdX"))
  /\ fst (handle "a" h) = Ret None
  /\ currentKeymap h' = Some {[ "b" := VCommand (CmdId "cmd1") ]}
  /\ currentCommonKeymap h' = Some staleCommon
  /\ currentCommonKeymap h' <> None
  /\ fst (run ["a"; "c"] h)
     = [Pending; Resolved (mkAction (CmdId "cmdY") "ac")].
Proof.
  repeat apply conj; try discriminate; vm_compute; reflexivity.
Qed.

(** ** Reset *)

(** C2.  After any keys [pre] on any handler, a call of [handle] that
    resolves or throws leaves the handler as [reset()] leaves it, which is
    the handler as the constructor makes it: both cursors at their roots,
    [keys] and [count] empty, [parsingCount] true.  The handler that comes
    with a thrown error is already the reset one: [reset()] precedes the
    [throw]. *)
Theorem C2_terminal_call_resets (h : Handler) (pre : list string) (key : string) :
  let h1 := snd (run pre h) in
  fst (handle key h1) <> Ret None ->
  let h2 := snd (handle key h1) in
  h2 = snd (reset h1)
  /\ currentKeymap h2 = keymap h
  /\ currentCommonKeymap h2 = commonKeymap h
  /\ keys h2 = EmptyString
  /\ count h2 = EmptyString
  /\ parsingCount h2 = true
  /\ (forall t, h2 = new t (keymap h) (commonKeymap h) (commandMode h))
  /\ (forall e, fst (handle key h1) = Throw e ->
      handle key h1
      = (Throw e, new EmptyString (keymap h) (commonKeymap h) (commandMode h))).
Proof.
  intros h1 Hterm h2.
  assert (h2 = fresh h) as Hh2.
  { unfold h2. rewrite handle_terminal_fresh by exact Hterm.
    apply fresh_sameConfig, run_sameConfig. }
  assert (fresh h1 = fresh h) as Hh1
    by apply fresh_sameConfig, run_sameConfig.
  repeat apply conj; try (rewrite Hh2; reflexivity).
  - rewrite reset_eq. simpl. congruence.
  - intros t. rewrite Hh2. apply fresh_new.
  - intros e He. rewrite <- (fresh_new EmptyString), <- Hh2. unfold h2.
    rewrite <- He. destruct (handle key h1); reflexivity.
Qed.

Lemma C2_terminal_call_resets_witness :
  let h := new EmptyString (Some divergeMode) (Some divergeCommon) false in
  snd (handle "z" (snd (run ["3"; "a"] h))) = h
  /\ snd (handle "b" (snd (run ["3"; "a"] h))) = h.
Proof.
  intros h. split.
  - destruct (C2_terminal_call_resets h ["3"; "a"] "z") as (_ & _ & _ & _ & _ & _ & H & _).
    + vm_compute. discriminate.
    + apply (H EmptyString).
  - destruct (C2_terminal_call_resets h ["3"; "a"] "b") as (_ & _ & _ & _ & _ & _ & H & _).
    + vm_compute. discriminate.
    + apply (H EmptyString).
Defined.

(** ** Count prefix *)

Lemma isCountDigit_validDigit (key : string) (h : Handler) :
  parsingCount h = true -> commandMode h = false ->
  (isCountDigit key h = true <-> validDigit key (count h)).
Proof.
  intros Hp Hc. unfold isCountDigit. rewrite Hp, Hc. simpl.
  apply isNum_validDigit.
Qed.

Lemma isCountDigit_ended (key : string) (h : Handler) :
  parsingCount h = false -> isCountDigit key h = false.
Proof. intros Hp. unfold isCountDigit. rewrite Hp. reflexivity. Qed.

(** Once the digit test has failed, the call goes on as if [parsingCount]
    had been false from the start. *)
Lemma handle_not_digit (key : string) (h : Handler) :
  isCountDigit key h = false ->
  handle key h = handle key (set_parsingCount false h).
Proof.
  intros Hd. rewrite !handle_eq. unfold handle_cases.
  rewrite Hd, (isCountDigit_ended key (set_parsingCount false h)) by reflexivity.
  reflexivity.
Qed.

(** A pending call of the sequence branch has appended the key and left the
    count alone, with [parsingCount] false. *)
Lemma handle_pending_key (key : string) (h : Handler) :
  isCountDigit key h = false ->
  fst (handle key h) = Ret None ->
  let h' := snd (handle key h) in
  parsingCount h' = false /\ keys h' = keys h ++ key /\ count h' = count h.
Proof.
  intros Hd. handle_paths key h; simpl; try discriminate; auto.
Qed.

(** While the calls stay pending, count parsing stays off and the count
    stays as it is. *)
Lemma run_pending_count (ks : list string) (h : Handler) :
  parsingCount h = false ->
  Forall (fun o => o = Pending) (fst (run ks h)) ->
  parsingCount (snd (run ks h)) = false /\ count (snd (run ks h)) = count h.
Proof.
  revert h. induction ks as [|k ks IH]; intros h Hp Hall; simpl in *.
  - auto.
  - pose proof (handle_pending_key k h (isCountDigit_ended k h Hp)) as Hk.
    destruct (handle k h) as [r h1]. simpl in Hk.
    specialize (IH h1). destruct (run ks h1) as [os h2]. simpl in *.
    inversion Hall as [|o os' Ho Hos]; subst.
    assert (r = Ret None) as ->.
    { destruct r as [[a|]|e]; simpl in Ho; congruence. }
    destruct (Hk eq_refl) as (Hp1 & _ & Hc1).
    destruct (IH Hp1 Hos) as (Hp2 & Hc2). split; congruence.
Qed.

Lemma run_app (ks1 ks2 : list string) (h : Handler) :
  run (ks1 ++ ks2)%list h =
  ((fst (run ks1 h) ++ fst (run ks2 (snd (run ks1 h))))%list,
   snd (run ks2 (snd (run ks1 h)))).
Proof.
  revert h. induction ks1 as [|k ks1 IH]; intros h.
  - simpl. destruct (run ks2 h); reflexivity.
  - simpl. destruct (handle k h) as [r h1]. rewrite IH.
    destruct (run ks1 h1) as [os h2]. reflexivity.
Qed.

(** The count example on any keymap that binds ["j"] to a command. *)
Lemma count_12j (t : string) (km : Keymap) (ckm : option Keymap) (c : Command) :
  km !! "j" = Some (VCommand c) ->
  truthy (VCommand c) = true ->
  let h := new t (Some km) ckm false in
  fst (run ["1"; "2"; "j"] h) = [Pending; Pending; Resolved (mkAction c "j")]
  /\ count (snd (run ["1"; "2"] h)) = "12"
  /\ keys (snd (run ["1"; "2"] h)) = EmptyString
  /\ keyStatusBar (snd (run ["1"; "2"] h)) = "12".
Proof.
  intros Hj Hc h. unfold h. rewrite new_eq.
  set (h2 := mkHandler "12" (Some km) ckm false (Some km) ckm
                       EmptyString "12" true).
  assert (run ["1"; "2"]
              (mkHandler EmptyString (Some km) ckm false (Some km) ckm
                         EmptyString EmptyString true)
          = ([Pending; Pending], h2)) as H12.
  { reflexivity. }
  assert (handle "j" h2 = (Ret (Some (mkAction c "j")), fresh h2)) as Hjr.
  { rewrite handle_eq. unfold handle_cases.
    change (isCountDigit "j" h2) with false.
    change (commandMode h2) with false.
    change (currentKeymap h2) with (Some km).
    rewrite (resolve_bound km "j" (VCommand c) Hj Hc). reflexivity. }
  rewrite H12. repeat apply conj; try reflexivity.
  change ["1"; "2"; "j"] with (["1"; "2"] ++ ["j"])%list.
  rewrite run_app, H12. simpl. rewrite Hjr. reflexivity.
Qed.

Lemma zero_first (t : string) (km ckm : option Keymap) :
  let h := new t km ckm false in
  isCountDigit "0" h = false
  /\ handle "0" h = handle "0" (set_parsingCount false h)
  /\ count (snd (handle "0" h)) = EmptyString
  /\ (fst (handle "0" h) = Ret None ->
      keys (snd (handle "0" h)) = "0"
      /\ parsingCount (snd (handle "0" h)) = false)
  /\ (forall m c, km = Some m -> m !! "0" = Some (VCommand c) ->
      truthy (VCommand c) = true ->
      handle "0" h = (Ret (Some (mkAction c "0")), h)).
Proof.
  intros h.
  assert (isCountDigit "0" h = false) as Hd by (unfold h; rewrite new_eq; reflexivity).
  assert (count h = EmptyString /\ keys h = EmptyString) as (Hc & Hk)
    by (unfold h; rewrite new_eq; split; reflexivity).
  repeat apply conj.
  - exact Hd.
  - apply handle_not_digit, Hd.
  - destruct (fst (handle "0" h)) as [[a|]|e] eqn:Hr.
    + rewrite handle_terminal_fresh by congruence. reflexivity.
    + destruct (handle_pending_key "0" h Hd Hr) as (_ & _ & ->). exact Hc.
    + rewrite handle_terminal_fresh by congruence. reflexivity.
  - intros Hr. destruct (handle_pending_key "0" h Hd Hr) as (Hp & Hks & _).
    rewrite Hks, Hk. split; [reflexivity | exact Hp].
  - intros m c -> Hm Hc'. rewrite handle_eq. unfold handle_cases.
    rewrite Hd. unfold h at 1 2. rewrite new_eq.
    change (commandMode _) with false. cbv beta iota.
    change (currentKeymap _) with (Some m).
    rewrite (resolve_bound m "0" (VCommand c) Hm Hc').
    unfold h. rewrite new_eq. reflexivity.
Qed.

(** C3 as it is written fails where ["j"] is bound to the terminal command
    that is the empty string: ["1"], ["2"] are pending and leave the count
    ["12"], but ["j"] does not resolve, it throws "undefined key
    sequence". *)
Lemma C3_counterexample_empty_command :
  let km : Keymap := {[ "j" := VCommand (CmdId EmptyString) ]} in
  let h := new EmptyString (Some km) None false in
  km !! "j" = Some (VCommand (CmdId EmptyString))
  /\ isCommand (VCommand (CmdId EmptyString)) = true
  /\ count (snd (run ["1"; "2"] h)) = "12"
  /\ fst (run ["1"; "2"; "j"] h)
     = [Pending; Pending; Failed (undefinedKeySequence "j")]
  /\ ~ (exists a, fst (handle "j" (snd (run ["1"; "2"] h))) = Ret (Some a)).
Proof.
  repeat apply conj; try (vm_compute; reflexivity).
  intros [a Ha]. vm_compute in Ha. discriminate Ha.
Qed.

(** C3, amended.  On a handler that is parsing the count outside command mode: a
    digit valid at its position (1-9 while the count is empty, 0-9 after)
    goes to the end of [count], the call is pending and [keys] is as before;
    any other key, ["0"] on an empty count included, is handled exactly as
    with [parsingCount] false, and as long as the sequence stays pending
    [parsingCount] stays false and the count stays put.  On a fresh handler
    whose keymap binds ["j"] to a command other than the empty string,
    ["1"], ["2"] are pending and leave the count ["12"], and ["j"] then
    resolves, with keys ["j"]; a first key ["0"] leaves the count empty and
    is looked up as a key. *)
Theorem C3_count_prefix (h : Handler) (key : string) :
  parsingCount h = true ->
  commandMode h = false ->
  (validDigit key (count h) ->
   handle key h = (Ret None, counted key h)
   /\ count (counted key h) = count h ++ key
   /\ keys (counted key h) = keys h)
  /\ (~ validDigit key (count h) ->
      handle key h = handle key (set_parsingCount false h)
      /\ (fst (handle key h) = Ret None ->
          let h' := snd (handle key h) in
          parsingCount h' = false
          /\ keys h' = keys h ++ key
          /\ count h' = count h
          /\ forall ks, Forall (fun o => o = Pending) (fst (run ks h')) ->
               parsingCount (snd (run ks h')) = false
               /\ count (snd (run ks h')) = count h))
  /\ (count h = EmptyString -> ~ validDigit "0" (count h))
  /\ (forall t km ckm c,
      km !! "j" = Some (VCommand c) ->
      truthy (VCommand c) = true ->
      let h0 := new t (Some km) ckm false in
      fst (run ["1"; "2"; "j"] h0)
      = [Pending; Pending; Resolved (mkAction c "j")]
      /\ count (snd (run ["1"; "2"] h0)) = "12"
      /\ keys (snd (run ["1"; "2"] h0)) = EmptyString)
  /\ (forall t km ckm,
      let h0 := new t km ckm false in
      handle "0" h0 = handle "0" (set_parsingCount false h0)
      /\ count (snd (handle "0" h0)) = EmptyString
      /\ (fst (handle "0" h0) = Ret None ->
          keys (snd (handle "0" h0)) = "0"
          /\ parsingCount (snd (handle "0" h0)) = false)
      /\ (forall m c, km = Some m -> m !! "0" = Some (VCommand c) ->
          truthy (VCommand c) = true ->
          handle "0" h0 = (Ret (Some (mkAction c "0")), h0))).
Proof.
  intros Hp Hcm.
  pose proof (isCountDigit_validDigit key h Hp Hcm) as Hiff.
  repeat apply conj.
  - intros Hv. apply Hiff in Hv.
    rewrite handle_eq. unfold handle_cases. rewrite Hv. auto.
  - intros Hnv.
    assert (isCountDigit key h = false) as Hd.
    { destruct (isCountDigit key h); [|reflexivity].
      exfalso. apply Hnv, Hiff. reflexivity. }
    split; [apply handle_not_digit, Hd|].
    intros Hr. cbv zeta.
    destruct (handle_pending_key key h Hd Hr) as (Hp' & Hk' & Hc').
    repeat apply conj; try assumption.
    intros ks Hall.
    destruct (run_pending_count ks _ Hp' Hall) as (H1 & H2).
    split; congruence.
  - intros -> Hv. apply isNum_first in Hv. discriminate Hv.
  - intros t km ckm c Hj Hc h0.
    destruct (count_12j t km ckm c Hj Hc) as (H1 & H2 & H3 & _). auto.
  - intros t km ckm. destruct (zero_first t km ckm) as (_ & H); exact H.
Qed.

Lemma C3_count_prefix_witness :
  let h := new EmptyString (Some {[ "j" := VCommand (CmdId "cursorDown") ]})
               None false in
  handle "1" h = (Ret None, counted "1" h)
  /\ handle "j" h = handle "j" (set_parsingCount false h)
  /\ fst (run ["1"; "2"; "j"] h)
     = [Pending; Pending; Resolved (mkAction (CmdId "cursorDown") "j")].
Proof.
  intros h.
  destruct (C3_count_prefix h "1" eq_refl eq_refl) as (Hdigit & _ & _ & Hex & _).
  destruct (C3_count_prefix h "j" eq_refl eq_refl) as (_ & Hother & _).
  split; [|split].
  - apply Hdigit. vm_compute. left. reflexivity.
  - apply Hother. vm_compute.
    intros H; repeat (destruct H as [H|H]; [discriminate H|]); exact H.
  - apply (Hex EmptyString {[ "j" := VCommand (CmdId "cursorDown") ]} None
               (CmdId "cursorDown")); vm_compute; reflexivity.
Defined.

(** ** Fallback to the common keymap *)

Lemma truthy_command (c : Command) :
  truthy (VCommand c) = true <-> c <> CmdId EmptyString.
Proof.
  split.
  - intros H ->. discriminate H.
  - intros H. destruct (truthy (VCommand c)) eqn:E; [reflexivity|].
    apply truthy_false_inv in E. congruence.
Qed.

(** C5 as it is written fails on a fresh handler with empty keymaps and the
    key ["5"]: neither cursor resolves ["5"], yet the call does not fail; the
    key is taken as a digit of the count and the call is pending. *)
Lemma C5_counterexample_count_digit :
  let h := new EmptyString (Some ∅) (Some ∅) false in
  commandMode h = false
  /\ getFromKeymap (currentKeymap h) "5" = None
  /\ getFromKeymap (currentCommonKeymap h) "5" = None
  /\ handle "5" h = (Ret None, counted "5" h)
  /\ ~ (exists e, fst (handle "5" h) = Throw e).
Proof.
  repeat apply conj; try (vm_compute; reflexivity).
  intros [e He]. vm_compute in He. discriminate He.
Qed.

(** The other input on which the wording of C5 fails: the common lookup
    yields a terminal command, the empty string, and the call throws instead
    of returning it. *)
Lemma fallback_empty_command_throws :
  let h := new EmptyString (Some ∅)
               (Some {[ "x" := VCommand (CmdId EmptyString) ]}) false in
  getFromKeymap (currentKeymap h) "x" = None
  /\ getFromKeymap (currentCommonKeymap h) "x"
     = Some (VCommand (CmdId EmptyString))
  /\ handle "x" h = (Throw (undefinedKeySequence "x"), h).
Proof. repeat apply conj; vm_compute; reflexivity. Qed.

(** C5, amended.  Outside command mode, when the key is not taken as a count
    digit and its lookup under the mode cursor gives nothing truthy (no
    binding, or the empty-string command), the result is decided by the
    lookup under the common cursor alone: a command other than the empty
    string resolves, with the accumulated keys, and the handler is reset; a
    sub-keymap becomes the common cursor while the mode cursor is cleared,
    and the call is pending; the call throws exactly when the common lookup
    gives nothing truthy either, and what it throws is the "undefined key
    sequence" error with the accumulated keys, after the reset. *)
Theorem C5_common_fallback (h : Handler) (key : string) :
  commandMode h = false ->
  isCountDigit key h = false ->
  truthy_opt (getFromKeymap (currentKeymap h) key) = false ->
  let v := getFromKeymap (currentCommonKeymap h) key in
  let ks := keys h ++ key in
  (forall c, v = Some (VCommand c) -> c <> CmdId EmptyString ->
   handle key h = (Ret (Some (mkAction c ks)), snd (reset h)))
  /\ (forall csub, v = Some (VKeymap csub) ->
      fst (handle key h) = Ret None
      /\ currentKeymap (snd (handle key h)) = None
      /\ currentCommonKeymap (snd (handle key h)) = Some csub
      /\ keys (snd (handle key h)) = ks
      /\ count (snd (handle key h)) = count h)
  /\ ((exists e, fst (handle key h) = Throw e) <-> truthy_opt v = false)
  /\ (truthy_opt v = false ->
      handle key h = (Throw (undefinedKeySequence ks), snd (reset h))).
Proof.
  intros Hcm Hd Hmode v ks. subst v ks. apply resolve_None in Hmode.
  rewrite reset_eq, handle_eq. unfold handle_cases.
  rewrite Hd, Hcm, Hmode. simpl snd.
  split; [|split; [|split]].
  - intros c Hv Hc. apply truthy_command in Hc.
    assert (resolve (currentCommonKeymap h) key = Some (VCommand c)) as ->
      by (apply resolve_truthy; auto).
    reflexivity.
  - intros csub Hv.
    assert (resolve (currentCommonKeymap h) key = Some (VKeymap csub)) as ->
      by (apply resolve_truthy; auto).
    simpl. auto.
  - rewrite <- resolve_None.
    destruct (resolve (currentCommonKeymap h) key) as [[c|csub]|]; simpl;
      split;
      solve [ intros [e He]; discriminate He
            | discriminate
            | reflexivity
            | intros _; eexists; reflexivity ].
  - intros Hv. apply resolve_None in Hv. rewrite Hv. reflexivity.
Qed.

Lemma C5_common_fallback_witness :
  let h := snd (handle "a" (new EmptyString (Some divergeMode)
                                (Some divergeCommon) false)) in
  handle "c" h
  = (Ret (Some (mkAction (CmdId "cmd2") "ac")),
     new EmptyString (Some divergeMode) (Some divergeCommon) false)
  /\ handle "z" h
     = (Throw (undefinedKeySequence "az"),
        new EmptyString (Some divergeMode) (Some divergeCommon) false).
Proof.
  intros h. split.
  - destruct (C5_common_fallback h "c") as (Hcmd & _);
      [reflexivity | reflexivity | vm_compute; reflexivity |].
    apply (Hcmd (CmdId "cmd2")); [vm_compute; reflexivity | discriminate].
  - destruct (C5_common_fallback h "z") as (_ & _ & _ & Hfail);
      [reflexivity | reflexivity | vm_compute; reflexivity |].
    apply Hfail. vm_compute. reflexivity.
Defined.

(** ** The empty-string command *)

(** C10.  Outside command mode no call resolves to the empty-string command.
    A key whose lookup under the mode cursor (exact or wildcard) is the
    empty-string command gives the result it would give with nothing at all
    under the mode cursor, and when the key is looked up (it is not taken as
    a count digit) the whole call is the same: the common cursor decides.
    When the mode lookup gives nothing truthy and the common lookup is the
    empty-string command, the looked-up key throws "undefined key sequence"
    and the handler is reset. *)
Theorem C10_empty_command_as_unbound (h : Handler) (key : string) :
  commandMode h = false ->
  (forall a, fst (handle key h) = Ret (Some a) -> command a <> CmdId EmptyString)
  /\ (getFromKeymap (currentKeymap h) key = Some (VCommand (CmdId EmptyString)) ->
      fst (handle key h) = fst (handle key (set_currentKeymap None h))
      /\ (isCountDigit key h = false ->
          handle key h = handle key (set_currentKeymap None h)))
  /\ (isCountDigit key h = false ->
      truthy_opt (getFromKeymap (currentKeymap h) key) = false ->
      getFromKeymap (currentCommonKeymap h) key
      = Some (VCommand (CmdId EmptyString)) ->
      handle key h
      = (Throw (undefinedKeySequence (keys h ++ key)), snd (reset h))).
Proof.
  intros Hcm. repeat apply conj.
  - intros a. rewrite handle_eq. unfold handle_cases. rewrite Hcm.
    destruct (isCountDigit key h); [discriminate|].
    destruct (resolve (currentKeymap h) key) as [[c|sub]|] eqn:Hm.
    + intros [= <-]. simpl. apply truthy_command.
      apply resolve_truthy in Hm. tauto.
    + discriminate.
    + destruct (resolve (currentCommonKeymap h) key) as [[c|sub]|] eqn:Hc;
        try discriminate.
      intros [= <-]. simpl. apply truthy_command.
      apply resolve_truthy in Hc. tauto.
  - intros Hm.
    assert (resolve (currentKeymap h) key = None) as Hr
      by (apply resolve_None; rewrite Hm; reflexivity).
    assert (handle_cases key h = handle_cases key (set_currentKeymap None h)
            \/ isCountDigit key h = true
               /\ fst (handle_cases key h)
                  = fst (handle_cases key (set_currentKeymap None h))) as Hcases.
    { unfold handle_cases.
      change (isCountDigit key (set_currentKeymap None h))
        with (isCountDigit key h).
      destruct (isCountDigit key h); [right; auto|left].
      change (commandMode (set_currentKeymap None h)) with (commandMode h).
      rewrite Hcm, Hr. reflexivity. }
    rewrite !handle_eq. split.
    + destruct Hcases as [->|[_ ->]]; reflexivity.
    + intros Hd. destruct Hcases as [->|[Hd' _]]; [reflexivity|congruence].
  - intros Hd Hm Hc. apply resolve_None in Hm.
    assert (resolve (currentCommonKeymap h) key = None) as Hr
      by (apply resolve_None; rewrite Hc; reflexivity).
    rewrite reset_eq, handle_eq. unfold handle_cases.
    rewrite Hd, Hcm, Hm, Hr. reflexivity.
Qed.

Lemma C10_empty_command_as_unbound_witness :
  let emptyBound : Keymap := {[ "x" := VCommand (CmdId EmptyString) ]} in
  let anyEmpty : Keymap := {[ wildcard := VCommand (CmdId EmptyString) ]} in
  let h1 := new EmptyString (Some emptyBound) (Some divergeCommon) false in
  let h2 := new EmptyString (Some anyEmpty) (Some emptyBound) false in
  handle "x" h1 = handle "x" (set_currentKeymap None h1)
  /\ handle "x" h2 = (Throw (undefinedKeySequence "x"), h2).
Proof.
  intros emptyBound anyEmpty h1 h2. split.
  - destruct (C10_empty_command_as_unbound h1 "x" eq_refl) as (_ & Hmode & _).
    apply Hmode; vm_compute; reflexivity.
  - destruct (C10_empty_command_as_unbound h2 "x" eq_refl) as (_ & _ & Hcommon).
    apply Hcommon; vm_compute; reflexivity.
Defined.

(** ** Command mode *)

(** C6.  In command mode a key other than the newline is appended to [keys]
    and the call is pending.  On the newline the buffer without that newline
    (which is [keys] as it was before the call) is looked up as one key of the
    root keymap, with no wildcard and no descent: bound to a command, the
    call resets the handler and returns the command with that text; in every
    other case it resets and throws "undefined command" with that text.  With
    [{wq: "saveAndClose"}], w, q, newline resolves to [saveAndClose] and
    w, x, newline throws; with [{w: {q: ...}}], w, q, newline throws too. *)
Theorem C6_command_mode (h : Handler) (key : string) :
  (commandMode h = true ->
   (key <> newline ->
    handle key h = (Ret None, typed key h)
    /\ keys (typed key h) = keys h ++ key
    /\ count (typed key h) = count h)
   /\ substring 0 (String.length (keys h ++ newline) - 1) (keys h ++ newline)
      = keys h
   /\ (forall c, keymap h ≫= (fun km => km !! keys h) = Some (VCommand c) ->
       handle newline h = (Ret (Some (mkAction c (keys h))), snd (reset h)))
   /\ ((forall c, keymap h ≫= (fun km => km !! keys h) <> Some (VCommand c)) ->
       handle newline h = (Throw (undefinedCommand (keys h)), snd (reset h))))
  /\ (forall t ckm,
      let h0 := new t (Some exKeymap) ckm true in
      run ["w"; "q"; newline] h0
      = ([Pending; Pending; Resolved (mkAction (CmdId "saveAndClose") "wq")], h0)
      /\ run ["w"; "x"; newline] h0
         = ([Pending; Pending; Failed (undefinedCommand "wx")], h0))
  /\ (forall t ckm,
      let h0 := new t (Some exNested) ckm true in
      run ["w"; "q"; newline] h0
      = ([Pending; Pending; Failed (undefinedCommand "wq")], h0)).
Proof.
  split; [|split].
  - intros Hcm.
    assert (isCountDigit key h = false /\ isCountDigit newline h = false)
      as (Hd & Hdn)
      by (unfold isCountDigit; rewrite Hcm, !andb_false_r; auto).
    split; [|split; [|split]].
    + intros Hk. rewrite handle_eq. unfold handle_cases. rewrite Hd, Hcm.
      destruct (String.eqb key newline) eqn:E;
        [apply String.eqb_eq in E; contradiction|auto].
    + apply substring_drop_last.
    + intros c Hc. rewrite reset_eq, handle_eq. unfold handle_cases.
      rewrite Hdn, Hcm, Hc. reflexivity.
    + intros Hnc. rewrite reset_eq, handle_eq. unfold handle_cases.
      rewrite Hdn, Hcm.
      destruct (keymap h ≫= (fun km => km !! keys h)) as [[c|m]|];
        [exfalso; apply (Hnc c); reflexivity | reflexivity | reflexivity].
  - intros t ckm h0. split; vm_compute; reflexivity.
  - intros t ckm h0. vm_compute. reflexivity.
Qed.

Lemma C6_command_mode_witness :
  let h := snd (run ["w"; "q"] (new EmptyString (Some exKeymap) None true)) in
  handle "!" h = (Ret None, typed "!" h)
  /\ handle newline h
     = (Ret (Some (mkAction (CmdId "saveAndClose") "wq")),
        new EmptyString (Some exKeymap) None true)
  /\ handle newline (typed "!" h)
     = (Throw (undefinedCommand "wq!"), new EmptyString (Some exKeymap) None true).
Proof.
  intros h.
  destruct (C6_command_mode h "!") as ((Hkey & _ & Hcmd & _) & _);
    [reflexivity|].
  destruct (C6_command_mode (typed "!" h) "!") as ((_ & _ & _ & Hfail) & _);
    [reflexivity|].
  split; [|split].
  - apply Hkey. discriminate.
  - apply (Hcmd (CmdId "saveAndClose")). vm_compute. reflexivity.
  - apply Hfail. intros c. vm_compute. discriminate.
Defined.

(** ** Determinism *)

Lemma reset_sameConfig (h1 h2 : Handler) :
  sameConfig h1 h2 -> snd (reset h1) = snd (reset h2).
Proof. intros H. rewrite !reset_eq. simpl. apply fresh_sameConfig, H. Qed.

Lemma rounds_repeat (n : nat) (ks : list string) (h h0 : Handler) :
  sameConfig h h0 ->
  rounds n ks h = repeat (fst (run ks (snd (reset h0)))) n.
Proof.
  remember (fst (run ks (snd (reset h0)))) as o eqn:Ho.
  revert h. induction n as [|n IH]; intros h Hsame; [reflexivity|].
  change (rounds (S n) ks h)
    with (let (os, h') := run ks (snd (reset h)) in os :: rounds n ks h').
  change (repeat o (S n)) with (o :: repeat o n).
  rewrite (reset_sameConfig h h0 Hsame).
  pose proof (run_sameConfig ks (snd (reset h0))) as Hrun.
  destruct (run ks (snd (reset h0))) as [os h1].
  simpl in Ho. subst o. f_equal. apply IH.
  rewrite reset_eq in Hrun. exact Hrun.
Qed.

(** C8.  What a sequence of keys produces on a reset handler is a function
    of the two keymaps, the command-mode flag and the keys: two handlers
    with the same three, whatever happened to them before, give the same
    outcomes after [reset()]; these are the outcomes on a newly constructed
    handler; and [n] rounds of the keys, each begun by [reset()], give that
    same list of outcomes [n] times. *)
Theorem C8_outcomes_deterministic
    (h1 h2 : Handler) (pre1 pre2 ks : list string) (n : nat) (t : string) :
  keymap h1 = keymap h2 ->
  commonKeymap h1 = commonKeymap h2 ->
  commandMode h1 = commandMode h2 ->
  let fromNew :=
    fst (run ks (new t (keymap h1) (commonKeymap h1) (commandMode h1))) in
  fst (run ks (snd (reset (snd (run pre1 h1)))))
  = fst (run ks (snd (reset (snd (run pre2 h2)))))
  /\ fst (run ks (snd (reset (snd (run pre1 h1))))) = fromNew
  /\ rounds n ks (snd (run pre1 h1)) = repeat fromNew n.
Proof.
  intros Hk Hc Hm fromNew.
  assert (sameConfig (snd (run pre1 h1)) h1) as H1 by apply run_sameConfig.
  assert (sameConfig (snd (run pre2 h2)) h1) as H2.
  { pose proof (run_sameConfig pre2 h2) as H. unfold sameConfig in *.
    intuition congruence. }
  assert (snd (reset h1) = new t (keymap h1) (commonKeymap h1) (commandMode h1))
    as Hnew by (rewrite reset_eq; apply fresh_new).
  split; [|split].
  - rewrite (reset_sameConfig _ _ H1), (reset_sameConfig _ _ H2). reflexivity.
  - rewrite (reset_sameConfig _ _ H1), Hnew. reflexivity.
  - rewrite (rounds_repeat n ks _ h1 H1), Hnew. reflexivity.
Qed.

Lemma C8_outcomes_deterministic_witness :
  let h := new EmptyString (Some divergeMode) (Some divergeCommon) false in
  rounds 3 ["a"; "c"; "a"; "z"] (snd (run ["2"; "a"] h))
  = repeat [Pending; Resolved (mkAction (CmdId "cmd2") "ac");
            Pending; Failed (undefinedKeySequence "az")] 3.
Proof.
  intros h.
  destruct (C8_outcomes_deterministic h h ["2"; "a"] ["a"] ["a"; "c"; "a"; "z"]
              3 EmptyString eq_refl eq_refl eq_refl) as (_ & _ & H).
  rewrite H. vm_compute. reflexivity.
Defined.

(** ** Status display *)

Lemma fresh_status (h : Handler) : keyStatusBar (fresh h) = statusText (fresh h).
Proof. destruct h as [t km ckm [|] cur ccur ks c pc]; reflexivity. Qed.

Lemma handle_status (key : string) (h : Handler) :
  keyStatusBar (snd (handle key h)) = statusText (snd (handle key h)).
Proof.
  handle_paths key h; try apply fresh_status; reflexivity.
Qed.

(** C9.  After every call of [handle] the status text is the prefix ([":"]
    in command mode, nothing otherwise), then the count, then the keys of
    the handler as the call leaves it: with the new digit at the end of the
    count when the key went into the count, with the key at the end of the
    keys when the call is pending on a sequence key.  [updateStatus] writes
    the text and no other field, and [handle] never reads the text: the
    same call under any other text gives the same result and handler. *)
Theorem C9_status_display (h : Handler) (key t : string) :
  let h' := snd (handle key h) in
  keyStatusBar h' = statusBarPrefix h' ++ count h' ++ keys h'
  /\ statusBarPrefix h' = (if commandMode h then ":" else EmptyString)
  /\ (isCountDigit key h = true ->
      keyStatusBar h' = statusBarPrefix h ++ (count h ++ key) ++ keys h)
  /\ (isCountDigit key h = false -> fst (handle key h) = Ret None ->
      keyStatusBar h' = statusBarPrefix h ++ count h ++ (keys h ++ key))
  /\ updateStatus h
     = (Ret tt, set_keyStatusBar (statusBarPrefix h ++ count h ++ keys h) h)
  /\ (let u := snd (updateStatus h) in
      keymap u = keymap h /\ commonKeymap u = commonKeymap h
      /\ commandMode u = commandMode h
      /\ currentKeymap u = currentKeymap h
      /\ currentCommonKeymap u = currentCommonKeymap h
      /\ keys u = keys h /\ count u = count h
      /\ parsingCount u = parsingCount h)
  /\ handle key (set_keyStatusBar t h) = handle key h.
Proof.
  intros h'. subst h'.
  split; [apply handle_status|].
  split.
  { destruct (handle_sameConfig key h) as (_ & _ & Hcm).
    unfold statusBarPrefix. rewrite Hcm. reflexivity. }
  split.
  { intros Hd. rewrite handle_eq. unfold handle_cases. rewrite Hd. reflexivity. }
  split.
  { intros Hd Hr.
    destruct (handle_pending_key key h Hd Hr) as (_ & Hk & Hc).
    rewrite handle_status. unfold statusText.
    destruct (handle_sameConfig key h) as (_ & _ & Hcm).
    unfold statusBarPrefix. rewrite Hk, Hc, Hcm. reflexivity. }
  split; [reflexivity|].
  split; [simpl; repeat split; reflexivity|].
  rewrite !handle_eq. reflexivity.
Qed.

Lemma C9_status_display_witness :
  let h := new EmptyString (Some divergeMode) (Some divergeCommon) false in
  keyStatusBar (snd (handle "4" h)) = "4"
  /\ keyStatusBar (snd (handle "a" (snd (handle "4" h)))) = "4a".
Proof.
  intros h.
  destruct (C9_status_display h "4" EmptyString) as (_ & _ & Hdigit & _).
  destruct (C9_status_display (snd (handle "4" h)) "a" EmptyString)
    as (_ & _ & _ & Hkey & _).
  split.
  - rewrite Hdigit; vm_compute; reflexivity.
  - rewrite Hkey; vm_compute; reflexivity.
Defined.

(** ** Invariants of the handler under all its methods *)

Lemma allDigits_app (s1 s2 : string) :
  allDigits (s1 ++ s2) = allDigits s1 && allDigits s2.
Proof.
  induction s1 as [|c s1 IH]; [reflexivity|].
  rewrite string_app_cons. simpl. rewrite IH. apply andb_assoc.
Qed.

Lemma isNum_char (d : ascii) :
  isNum (String d EmptyString) true = isNonZeroDigit d
  /\ isNum (String d EmptyString) false = isDigit d.
Proof. split; reflexivity. Qed.

Lemma isCountText_digit (c key : string) :
  isCountText c = true ->
  isNum key (Nat.eqb (String.length c) 0) = true ->
  isCountText (c ++ key) = true.
Proof.
  intros Hc Hk. destruct key as [|d [|e key]]; try discriminate Hk.
  destruct (isNum_char d) as (Hfirst & Hlater).
  destruct c as [|a c].
  - change (isNum (String d EmptyString) true = true) in Hk.
    rewrite Hfirst in Hk.
    change (isNonZeroDigit d && true = true). rewrite Hk. reflexivity.
  - change (isNum (String d EmptyString) false = true) in Hk.
    rewrite Hlater in Hk. rewrite string_app_cons.
    change (isNonZeroDigit a && allDigits c = true) in Hc.
    change (isNonZeroDigit a && allDigits (c ++ String d EmptyString) = true).
    apply andb_true_iff in Hc as [Ha Hc]. rewrite Ha, allDigits_app, Hc.
    change (true && (true && (isDigit d && true)) = true).
    rewrite Hk. reflexivity.
Qed.

Lemma fresh_invariant (h : Handler) : handlerInvariant (fresh h).
Proof.
  unfold handlerInvariant. split; [apply fresh_status|].
  simpl. auto.
Qed.

Lemma handle_invariant (key : string) (h : Handler) :
  handlerInvariant h -> handlerInvariant (snd (handle key h)).
Proof.
  intros (Hs & Hc & Hp & Hm).
  unfold handlerInvariant. split; [apply handle_status|].
  handle_paths key h; simpl;
    try (split; [reflexivity | split; [intros _; split; reflexivity | reflexivity]]);
    try (split;
         [exact Hc
         | split; [intros Hf; discriminate Hf
                  | intros Hx; first [apply Hm; reflexivity | congruence]]]).
  unfold isCountDigit in *.
  match goal with
  | H : _ && _ && _ = true |- _ =>
      apply andb_true_iff in H as [H Hnum];
      apply andb_true_iff in H as [Hpc Hcm]
  end.
  split; [apply isCountText_digit; assumption|].
  split; [exact Hp|].
  intros Hcm'. rewrite Hcm' in Hcm. discriminate Hcm.
Qed.

Lemma call_invariant (c : Call) (h : Handler) :
  handlerInvariant h -> handlerInvariant (call c h).
Proof.
  destruct c as [key|ks| | |]; unfold call.
  - apply handle_invariant.
  - intros (Hs & Hc & Hp & Hm). unfold handlerInvariant. simpl. auto.
  - intros (Hs & Hc & Hp & Hm). unfold handlerInvariant. simpl. auto.
  - intros _. rewrite reset_eq. apply fresh_invariant.
  - intros (Hs & Hc & Hp & Hm). unfold handlerInvariant. simpl.
    repeat split; auto. apply Hp; assumption.
Qed.

Lemma call_sameConfig (c : Call) (h : Handler) : sameConfig (call c h) h.
Proof.
  destruct c as [key|ks| | |]; unfold call;
    [apply handle_sameConfig | | | rewrite reset_eq |];
    unfold sameConfig; simpl; auto.
Qed.

Lemma calls_invariant (cs : list Call) (h : Handler) :
  handlerInvariant h -> handlerInvariant (calls cs h) /\ sameConfig (calls cs h) h.
Proof.
  revert h. induction cs as [|c cs IH]; intros h Hinv; simpl.
  - split; [exact Hinv | unfold sameConfig; auto].
  - destruct (IH (call c h) (call_invariant c h Hinv)) as (H1 & H2).
    split; [exact H1|].
    pose proof (call_sameConfig c h) as H3.
    unfold sameConfig in *. intuition congruence.
Qed.

Lemma new_invariant (t : string) (km ckm : option Keymap) (cm : bool) :
  handlerInvariant (new t km ckm cm).
Proof. unfold new. rewrite reset_eq. apply fresh_invariant. Qed.

(** X1.  Whatever methods are called on a new handler, in whatever order
    and with whatever keys, [count] is empty or a decimal numeral that does
    not begin with a zero; in command mode it is always empty. *)
Theorem count_always_numeral
    (t : string) (km ckm : option Keymap) (cm : bool) (cs : list Call) :
  let h := calls cs (new t km ckm cm) in
  isCountText (count h) = true
  /\ (count h = EmptyString
      \/ exists d ds, count h = String d ds
                      /\ isNonZeroDigit d = true /\ allDigits ds = true)
  /\ (cm = true -> count h = EmptyString).
Proof.
  intros h.
  destruct (calls_invariant cs _ (new_invariant t km ckm cm))
    as ((_ & Hc & _ & Hm) & (_ & _ & Hcm)).
  fold h in Hc, Hm, Hcm.
  split; [exact Hc|]. split.
  - destruct (count h) as [|d ds]; [left; reflexivity|right].
    exists d, ds. simpl in Hc. apply andb_true_iff in Hc as [Hd Hds]. auto.
  - intros ->. apply Hm. rewrite Hcm, new_eq. reflexivity.
Qed.

Lemma count_always_numeral_witness :
  count (calls [CallHandle "4"; CallHandle "0"; CallClear; CallHandle "7"]
               (new EmptyString (Some divergeMode) None false)) = "407"
  /\ count (calls [CallHandle "4"; CallHandle "0"]
                  (new EmptyString (Some divergeMode) None true)) = EmptyString.
Proof.
  split; [vm_compute; reflexivity|].
  apply (count_always_numeral EmptyString (Some divergeMode) None true
           [CallHandle "4"; CallHandle "0"]).
  reflexivity.
Defined.

(** X2.  Whatever methods are called on a new handler, the two root
    keymaps and the command-mode flag stay those given to the constructor,
    the status text is the prefix, the count and the keys of the handler as
    it is, and as long as [parsingCount] is true both cursors are at their
    roots. *)
Theorem handler_invariants
    (t : string) (km ckm : option Keymap) (cm : bool) (cs : list Call) :
  let h := calls cs (new t km ckm cm) in
  keymap h = km /\ commonKeymap h = ckm /\ commandMode h = cm
  /\ keyStatusBar h = statusBarPrefix h ++ count h ++ keys h
  /\ (parsingCount h = true ->
      currentKeymap h = km /\ currentCommonKeymap h = ckm).
Proof.
  intros h.
  destruct (calls_invariant cs _ (new_invariant t km ckm cm))
    as ((Hs & _ & Hp & _) & (Hk & Hc & Hcm)).
  fold h in Hs, Hp, Hk, Hc, Hcm.
  rewrite new_eq in Hk, Hc, Hcm. simpl in Hk, Hc, Hcm.
  repeat split; try assumption.
  - rewrite <- Hk. apply Hp. assumption.
  - rewrite <- Hc. apply Hp. assumption.
Qed.

Lemma handler_invariants_witness :
  let h := calls [CallHandle "2"; CallSetKeys "zz"; CallClear]
                 (new EmptyString (Some divergeMode) (Some divergeCommon) false) in
  currentKeymap h = Some divergeMode
  /\ currentCommonKeymap h = Some divergeCommon.
Proof.
  intros h.
  apply (handler_invariants EmptyString (Some divergeMode) (Some divergeCommon)
           false [CallHandle "2"; CallSetKeys "zz"; CallClear]).
  reflexivity.
Defined.

(** ** Whole sequences *)

Lemma string_app_assoc (a b c : string) : (a ++ b) ++ c = a ++ (b ++ c).
Proof.
  induction a as [|x a IH]; [reflexivity|].
  rewrite !string_app_cons, IH. reflexivity.
Qed.

Lemma string_app_nil_r (a : string) : a ++ EmptyString = a.
Proof.
  induction a as [|x a IH]; [reflexivity|].
  rewrite string_app_cons, IH. reflexivity.
Qed.

Lemma run_cons (k : string) (ks : list string) (h : Handler) :
  run (k :: ks) h =
  (outcome (fst (handle k h)) :: fst (run ks (snd (handle k h))),
   snd (run ks (snd (handle k h)))).
Proof.
  simpl. destruct (handle k h) as [r h1]. simpl.
  destruct (run ks h1); reflexivity.
Qed.

Lemma concatKeys_app (ks1 ks2 : list string) :
  concatKeys (ks1 ++ ks2)%list = concatKeys ks1 ++ concatKeys ks2.
Proof.
  induction ks1 as [|k ks1 IH]; [reflexivity|].
  simpl. rewrite IH, string_app_assoc. reflexivity.
Qed.

Lemma run_not_digit (k : string) (ks : list string) (h : Handler) :
  isCountDigit k h = false ->
  run (k :: ks) h = run (k :: ks) (set_parsingCount false h).
Proof.
  intros Hd. rewrite !run_cons, (handle_not_digit k h Hd). reflexivity.
Qed.





(** ** The common keymap alone *)

Lemma handle_swapRoles (k : string) (h : Handler) :
  commandMode h = false ->
  currentKeymap h = None ->
  keymap h = None ->
  handle k (swapRoles h) = (fst (handle k h), swapRoles (snd (handle k h)))
  /\ currentKeymap (snd (handle k h)) = None.
Proof.
  destruct h as [t km ckm cm cur ccur ks c pc]. simpl.
  intros -> -> ->. rewrite !handle_eq. unfold handle_cases, isCountDigit.
  simpl.
  destruct (pc && true && isNum k (Nat.eqb (String.length c) 0));
    [split; reflexivity|].
  unfold followCommon. simpl.
  change (resolve None k) with (@None Value).
  destruct (resolve ccur k) as [[v|sub]|]; split; reflexivity.
Qed.

Lemma run_swapRoles (ks : list string) :
  forall h : Handler,
    commandMode h = false ->
    currentKeymap h = None ->
    keymap h = None ->
    run ks (swapRoles h) = (fst (run ks h), swapRoles (snd (run ks h))).
Proof.
  induction ks as [|k ks IH]; intros h Hcm Hcur Hkm; [reflexivity|].
  rewrite !run_cons.
  destruct (handle_swapRoles k h Hcm Hcur Hkm) as (Hstep & Hcur').
  destruct (handle_sameConfig k h) as (Hkm' & _ & Hcm').
  rewrite Hstep. simpl fst. simpl snd.
  rewrite (IH (snd (handle k h))) by congruence.
  reflexivity.
Qed.

(** X4.  Outside command mode, a handler constructed without a mode keymap
    and with a common keymap gives, on every sequence of keys, the outcomes
    of the handler constructed with that keymap as its mode keymap and no
    common keymap; the two handlers stay mirror images of each other. *)
Theorem common_alone_acts_as_keymap
    (t : string) (ckm : option Keymap) (ks : list string) :
  run ks (new t ckm None false)
  = (fst (run ks (new t None ckm false)),
     swapRoles (snd (run ks (new t None ckm false)))).
Proof.
  assert (new t ckm None false = swapRoles (new t None ckm false)) as ->
    by (rewrite !new_eq; reflexivity).
  apply run_swapRoles; rewrite new_eq; reflexivity.
Qed.

(** ** The count prefix and the sequence after it *)

Lemma forgetCount_fields (h1 h2 : Handler) :
  forgetCount h1 = forgetCount h2 ->
  sameConfig h1 h2
  /\ currentKeymap h1 = currentKeymap h2
  /\ currentCommonKeymap h1 = currentCommonKeymap h2
  /\ keys h1 = keys h2
  /\ parsingCount h1 = parsingCount h2.
Proof.
  destruct h1, h2. unfold forgetCount, sameConfig. simpl.
  intros [= -> -> -> -> -> -> ->]. repeat split; reflexivity.
Qed.

Lemma forgetCount_step (f : Handler -> Handler) (h1 h2 : Handler) :
  forgetCount h1 = forgetCount h2 ->
  (forall h, forgetCount (f h) = f (forgetCount h)) ->
  forgetCount (f h1) = forgetCount (f h2).
Proof. intros Hf Hcomm. rewrite !Hcomm, Hf. reflexivity. Qed.

(** Two handlers that differ in the count alone answer a sequence key
    alike; after a terminal outcome they are equal. *)
Lemma handle_forgetCount (k : string) (h1 h2 : Handler) :
  forgetCount h1 = forgetCount h2 ->
  parsingCount h1 = false ->
  fst (handle k h1) = fst (handle k h2)
  /\ (snd (handle k h1) = snd (handle k h2)
      \/ forgetCount (snd (handle k h1)) = forgetCount (snd (handle k h2))
         /\ parsingCount (snd (handle k h1)) = false).
Proof.
  intros Hf Hp.
  destruct (forgetCount_fields h1 h2 Hf)
    as ((Hk & Hc & Hm) & Hcur & Hccur & Hks & Hpc).
  assert (fresh h1 = fresh h2) as Hfresh
    by (apply fresh_sameConfig; unfold sameConfig; auto).
  assert (forall x y, forgetCount (set_currentCommonKeymap x
                                     (set_currentKeymap y (typed k h1)))
                      = forgetCount (set_currentCommonKeymap x
                                       (set_currentKeymap y (typed k h2))))
    as Hdesc.
  { intros x y. unfold forgetCount, typed. simpl.
    unfold set_keyStatusBar, set_count. simpl. congruence. }
  assert (forgetCount (typed k h1) = forgetCount (typed k h2)) as Htyped.
  { unfold forgetCount, typed. simpl.
    unfold set_keyStatusBar, set_count. simpl. congruence. }
  rewrite !handle_eq. unfold handle_cases, followCommon.
  rewrite (isCountDigit_ended k h1 Hp).
  rewrite (isCountDigit_ended k h2) by congruence.
  rewrite <- Hk, <- Hm, <- Hcur, <- Hccur, <- Hks, <- Hfresh.
  destruct (commandMode h1).
  - destruct (String.eqb k newline).
    + destruct (keymap h1 ≫= (fun km => km !! keys h1)) as [[c|m]|];
        split; auto.
    + split; [reflexivity|right]. split; [exact Htyped|reflexivity].
  - destruct (resolve (currentKeymap h1) k) as [[c|sub]|].
    + split; auto.
    + split; [reflexivity|right]. split; [apply Hdesc|reflexivity].
    + destruct (resolve (currentCommonKeymap h1) k) as [[c|sub]|].
      * split; auto.
      * split; [reflexivity|right]. split; [apply Hdesc|reflexivity].
      * split; auto.
Qed.

Lemma run_forgetCount (ks : list string) :
  forall h1 h2 : Handler,
    forgetCount h1 = forgetCount h2 ->
    parsingCount h1 = false ->
    fst (run ks h1) = fst (run ks h2).
Proof.
  induction ks as [|k ks IH]; intros h1 h2 Hf Hp; [reflexivity|].
  rewrite !run_cons. simpl fst.
  destruct (handle_forgetCount k h1 h2 Hf Hp) as (Hr & [Heq|[Hf' Hp']]).
  - rewrite Hr, Heq. reflexivity.
  - rewrite Hr, (IH _ _ Hf' Hp'). reflexivity.
Qed.

Lemma run_digits (ds : list string) :
  forall h : Handler,
    parsingCount h = true ->
    commandMode h = false ->
    digitsFrom (count h) ds ->
    fst (run ds h) = repeat Pending (length ds)
    /\ forgetCount (snd (run ds h)) = forgetCount h
    /\ count (snd (run ds h)) = count h ++ concatKeys ds.
Proof.
  induction ds as [|d ds IH]; intros h Hp Hcm Hds.
  - simpl. rewrite string_app_nil_r. auto.
  - destruct Hds as (Hd & Hds).
    apply (isCountDigit_validDigit d h Hp Hcm) in Hd.
    rewrite run_cons.
    assert (handle d h = (Ret None, counted d h)) as ->
      by (rewrite handle_eq; unfold handle_cases; rewrite Hd; reflexivity).
    simpl fst. simpl snd.
    destruct (IH (counted d h) Hp Hcm Hds) as (H1 & H2 & H3).
    rewrite H1, H2, H3. simpl. rewrite string_app_assoc.
    repeat split; reflexivity.
Qed.

Lemma not_digit_not_counted (k : string) (h : Handler) :
  ~ In k digits09 -> isCountDigit k h = false.
Proof.
  intros Hk. unfold isCountDigit.
  destruct (isNum k (Nat.eqb (String.length (count h)) 0)) eqn:E;
    [|apply andb_false_r].
  exfalso. apply Hk.
  destruct (Nat.eqb (String.length (count h)) 0).
  - apply isNum_first in E. right. exact E.
  - apply isNum_later in E. exact E.
Qed.

(** X5.  Outside command mode, a count typed before a sequence changes
    nothing in what the sequence does: after digits that form a count, each
    of them pending, the keys that follow (the first of them not a digit)
    give the outcomes they give on a new handler, with the same commands
    and the same keys reported. *)
Theorem count_prefix_is_transparent
    (t : string) (km ckm : option Keymap) (ds : list string)
    (k : string) (ks : list string) :
  digitsFrom EmptyString ds ->
  ~ In k digits09 ->
  fst (run (ds ++ k :: ks)%list (new t km ckm false))
  = (repeat Pending (length ds)
     ++ fst (run (k :: ks) (new t km ckm false)))%list
  /\ count (snd (run ds (new t km ckm false))) = concatKeys ds.
Proof.
  intros Hds Hk.
  assert (parsingCount (new t km ckm false) = true
          /\ commandMode (new t km ckm false) = false
          /\ count (new t km ckm false) = EmptyString) as (Hp & Hcm & Hc)
    by (rewrite new_eq; auto).
  rewrite <- Hc in Hds.
  destruct (run_digits ds _ Hp Hcm Hds) as (H1 & H2 & H3).
  rewrite Hc in H3. split; [|exact H3].
  rewrite run_app, H1. cbn [fst]. f_equal.
  rewrite (run_not_digit k ks _ (not_digit_not_counted k _ Hk)).
  rewrite (run_not_digit k ks (new t km ckm false)
             (not_digit_not_counted k _ Hk)).
  apply run_forgetCount; [|reflexivity].
  apply (forgetCount_step (set_parsingCount false) _ _ H2).
  intros h. reflexivity.
Qed.

Lemma count_prefix_is_transparent_witness :
  fst (run ["3"; "0"; "a"; "c"]
           (new EmptyString (Some divergeMode) (Some divergeCommon) false))
  = [Pending; Pending; Pending; Resolved (mkAction (CmdId "cmd2") "ac")].
Proof.
  destruct (count_prefix_is_transparent EmptyString (Some divergeMode)
              (Some divergeCommon) ["3"; "0"] "a" ["c"]) as (H & _).
  - vm_compute. tauto.
  - vm_compute.
    intros H; repeat (destruct H as [H|H]; [discriminate H|]); exact H.
  - etransitivity; [exact H | vm_compute; reflexivity].
Defined.

(** ** How long a sequence can stay pending *)

Lemma depth_lookup (m : Keymap) (k : string) (v : Value) :
  m !! k = Some v -> depth v < depth (VKeymap m).
Proof.
  intros H. simpl. apply Nat.lt_succ_r. revert H.
  induction m as [|i x m Hi Hfold IH] using map_first_key_ind.
  - rewrite lookup_empty. discriminate.
  - rewrite map_fold_insert_first_key by assumption.
    rewrite lookup_insert. case_decide.
    + intros [= ->]. lia.
    + intros H'. specialize (IH H'). lia.
Qed.

Lemma cursorDepth_resolve (cur : option Keymap) (k : string) (sub : Keymap) :
  resolve cur k = Some (VKeymap sub) ->
  cursorDepth (Some sub) < cursorDepth cur.
Proof.
  intros H. apply resolve_truthy in H as [H _].
  destruct cur as [m|]; [|discriminate H].
  unfold getFromKeymap in H. unfold cursorDepth.
  assert (depth (VKeymap sub) < depth (VKeymap m)) as Hlt.
  { destruct (m !! k) as [v|] eqn:Hk.
    - injection H as ->. apply (depth_lookup m k _ Hk).
    - destruct (m !! wildcard) as [w|] eqn:Hw; [|discriminate H].
      injection H as ->. apply (depth_lookup m wildcard _ Hw). }
  assert (1 <= depth (VKeymap sub)) by (simpl; lia).
  lia.
Qed.

(** A pending sequence key takes the two cursors strictly deeper. *)
Lemma handle_pending_deeper (k : string) (h : Handler) :
  commandMode h = false ->
  isCountDigit k h = false ->
  fst (handle k h) = Ret None ->
  cursorDepth (currentKeymap (snd (handle k h)))
  + cursorDepth (currentCommonKeymap (snd (handle k h)))
  < cursorDepth (currentKeymap h) + cursorDepth (currentCommonKeymap h).
Proof.
  intros Hcm Hd. rewrite handle_eq. unfold handle_cases. rewrite Hd, Hcm.
  destruct (resolve (currentKeymap h) k) as [[c|sub]|] eqn:Hm.
  - discriminate.
  - intros _. cbn [fst snd]. unfold followCommon.
    change (currentKeymap (set_currentCommonKeymap _ _)) with (Some sub).
    pose proof (cursorDepth_resolve _ _ _ Hm) as Hlt.
    destruct (resolve (currentCommonKeymap h) k) as [[c|csub]|] eqn:Hc.
    + change (currentCommonKeymap (set_currentCommonKeymap ?x _)) with x.
      lia.
    + change (currentCommonKeymap (set_currentCommonKeymap ?x _)) with x.
      pose proof (cursorDepth_resolve _ _ _ Hc). lia.
    + change (currentCommonKeymap (set_currentCommonKeymap ?x _)) with x.
      simpl cursorDepth at 2. lia.
  - destruct (resolve (currentCommonKeymap h) k) as [[c|csub]|] eqn:Hc;
      try discriminate.
    intros _. cbn [fst snd].
    change (currentKeymap (set_currentCommonKeymap _ _)) with (@None Keymap).
    change (currentCommonKeymap (set_currentCommonKeymap ?x _)) with x.
    pose proof (cursorDepth_resolve _ _ _ Hc).
    change (cursorDepth None) with 0. lia.
Qed.

Lemma run_pending_bound (ks : list string) :
  forall h : Handler,
    commandMode h = false ->
    parsingCount h = false ->
    Forall (fun o => o = Pending) (fst (run ks h)) ->
    length ks
    <= cursorDepth (currentKeymap h) + cursorDepth (currentCommonKeymap h).
Proof.
  induction ks as [|k ks IH]; intros h Hcm Hp Hall; [simpl; lia|].
  rewrite run_cons in Hall. cbn [fst] in Hall.
  inversion Hall as [|o os Ho Hos]; subst.
  assert (fst (handle k h) = Ret None) as Hr.
  { destruct (fst (handle k h)) as [[a|]|e]; simpl in Ho; congruence. }
  pose proof (isCountDigit_ended k h Hp) as Hd.
  pose proof (handle_pending_deeper k h Hcm Hd Hr) as Hlt.
  destruct (handle_pending_key k h Hd Hr) as (Hp' & _ & _).
  destruct (handle_sameConfig k h) as (_ & _ & Hcm').
  specialize (IH (snd (handle k h))).
  rewrite Hcm', Hcm in IH. specialize (IH eq_refl Hp' Hos).
  simpl length. lia.
Qed.

(** A key of at most one character, which is what the editor hands to
    [handle], is none of the inherited names. *)
Lemma short_key_isOwnName (k : string) :
  String.length k <= 1 -> isOwnName k = true.
Proof.
  destruct k as [|c [|d k]]; simpl; intros Hlen; [reflexivity| |lia].
  destruct c as [[] [] [] [] [] [] [] []]; reflexivity.
Qed.

(** X6.  Outside command mode a sequence of keys that are none of the
    names every object inherits cannot stay pending for longer than the
    keymaps are deep: when the first of them is not taken as a count digit
    and all of them are pending, their number is at most the number of
    sub-keymap levels below the mode cursor plus the number below the common
    cursor (at the start of a sequence, below the two root keymaps).  The
    next key at the latest resolves or fails. *)
Theorem pending_bounded_by_depth (h : Handler) (k : string) (ks : list string) :
  commandMode h = false ->
  forallb isOwnName (k :: ks) = true ->
  isCountDigit k h = false ->
  Forall (fun o => o = Pending) (fst (run (k :: ks) h)) ->
  length (k :: ks)
  <= cursorDepth (currentKeymap h) + cursorDepth (currentCommonKeymap h).
Proof.
  intros Hcm _ Hd Hall. rewrite (run_not_digit k ks h Hd) in Hall.
  apply (run_pending_bound (k :: ks) (set_parsingCount false h) Hcm eq_refl Hall).
Qed.

Lemma pending_bounded_by_depth_witness :
  let h := new EmptyString (Some divergeMode) (Some divergeCommon) false in
  cursorDepth (currentKeymap h) = 1
  /\ cursorDepth (currentCommonKeymap h) = 1
  /\ length ["a"]
     <= cursorDepth (currentKeymap h) + cursorDepth (currentCommonKeymap h).
Proof.
  intros h. split; [vm_compute; reflexivity|].
  split; [vm_compute; reflexivity|].
  apply (pending_bounded_by_depth h "a" []).
  - reflexivity.
  - vm_compute. reflexivity.
  - reflexivity.
  - vm_compute. repeat constructor.
Defined.

(** ** The keys reported *)

Lemma run_pending_keys (ks : list string) :
  forall h : Handler,
    parsingCount h = false ->
    Forall (fun o => o = Pending) (fst (run ks h)) ->
    keys (snd (run ks h)) = keys h ++ concatKeys ks
    /\ parsingCount (snd (run ks h)) = false
    /\ commandMode (snd (run ks h)) = commandMode h.
Proof.
  induction ks as [|k ks IH]; intros h Hp Hall.
  - simpl. rewrite string_app_nil_r. auto.
  - rewrite run_cons in *. cbn [fst snd] in *.
    inversion Hall as [|o os Ho Hos]; subst.
    assert (fst (handle k h) = Ret None) as Hr.
    { destruct (fst (handle k h)) as [[a|]|e]; simpl in Ho; congruence. }
    destruct (handle_pending_key k h (isCountDigit_ended k h Hp) Hr)
      as (Hp' & Hk' & _).
    destruct (handle_sameConfig k h) as (_ & _ & Hcm').
    destruct (IH _ Hp' Hos) as (H1 & H2 & H3).
    rewrite H1, H2, H3, Hk', Hcm'. simpl. rewrite string_app_assoc. auto.
Qed.

Lemma handle_terminal_keys (k : string) (h : Handler) :
  commandMode h = false ->
  isCountDigit k h = false ->
  (forall a, fst (handle k h) = Ret (Some a) -> action_keys a = keys h ++ k)
  /\ (forall e, fst (handle k h) = Throw e ->
      e = undefinedKeySequence (keys h ++ k)).
Proof.
  intros Hcm Hd. rewrite handle_eq. unfold handle_cases. rewrite Hd, Hcm.
  destruct (resolve (currentKeymap h) k) as [[c|sub]|];
    [| |destruct (resolve (currentCommonKeymap h) k) as [[c|sub]|]];
    simpl; split; intros x Hx; try discriminate Hx;
    injection Hx as <-; reflexivity.
Qed.

(** After keys that were all pending on a handler that no longer parses
    the count, a terminal call reports the keys held before and all the keys
    typed. *)
Lemma terminal_keys_after_pending (h : Handler) (ks : list string) (k : string) :
  commandMode h = false ->
  parsingCount h = false ->
  Forall (fun o => o = Pending) (fst (run ks h)) ->
  (forall a, fst (handle k (snd (run ks h))) = Ret (Some a) ->
   action_keys a = keys h ++ concatKeys (ks ++ [k])%list)
  /\ (forall e, fst (handle k (snd (run ks h))) = Throw e ->
      e = undefinedKeySequence (keys h ++ concatKeys (ks ++ [k])%list)).
Proof.
  intros Hcm Hp Hall.
  destruct (run_pending_keys ks h Hp Hall) as (Hk & Hp' & Hcm').
  rewrite Hcm in Hcm'.
  destruct (handle_terminal_keys k _ Hcm' (isCountDigit_ended k _ Hp'))
    as (Ha & He).
  rewrite Hk in Ha, He. rewrite concatKeys_app. simpl.
  rewrite string_app_nil_r, <- string_app_assoc. auto.
Qed.

(** X7.  Outside command mode, whichever of the two keymaps ends a
    sequence, what is reported is exactly what was typed: after keys that
    were all pending, the first of them not taken as a count digit, the
    action of a resolving key carries, and the "undefined key sequence"
    error of a failing key quotes, the keys the handler held before,
    followed by those keys and the last key, in order.  This holds on a new
    handler as on one that is in the middle of a sequence; digits that went
    into the count before are no part of what is reported. *)
Theorem terminal_reports_typed_keys
    (h : Handler) (ks : list string) (k : string) :
  commandMode h = false ->
  isCountDigit (hd k ks) h = false ->
  Forall (fun o => o = Pending) (fst (run ks h)) ->
  let r := fst (handle k (snd (run ks h))) in
  let typedKeys := keys h ++ concatKeys (ks ++ [k])%list in
  (forall a, r = Ret (Some a) -> action_keys a = typedKeys)
  /\ (forall e, r = Throw e -> e = undefinedKeySequence typedKeys).
Proof.
  intros Hcm Hd Hall r typedKeys. subst r typedKeys.
  destruct ks as [|k0 ks].
  - cbn [hd] in Hd. cbn [run snd app concatKeys].
    destruct (handle_terminal_keys k h Hcm Hd) as (Ha & He).
    rewrite string_app_nil_r. auto.
  - cbn [hd] in Hd. rewrite (run_not_digit k0 ks h Hd) in *.
    apply (terminal_keys_after_pending (set_parsingCount false h)
             (k0 :: ks) k Hcm eq_refl Hall).
Qed.

Lemma terminal_reports_typed_keys_witness :
  let h := snd (run ["1"; "2"]
                    (new EmptyString (Some divergeMode)
                         (Some divergeCommon) false)) in
  exists a, fst (handle "c" (snd (run ["a"] h))) = Ret (Some a)
            /\ action_keys a = "ac".
Proof.
  intros h.
  destruct (terminal_reports_typed_keys h ["a"] "c") as (Ha & _).
  - reflexivity.
  - reflexivity.
  - vm_compute. repeat constructor.
  - exists (mkAction (CmdId "cmd2") "ac"). split; [vm_compute; reflexivity|].
    apply Ha. vm_compute. reflexivity.
Defined.

(** ** One sequence after the other *)

(** X8.  A call that resolves or throws cuts the history off: the keys
    typed after it give the outcomes they give on a new handler with the
    same keymaps and the same command-mode flag, whatever was typed before. *)
Theorem terminal_isolates_next_sequence
    (h : Handler) (ks1 : list string) (k : string) (ks2 : list string)
    (t : string) :
  fst (handle k (snd (run ks1 h))) <> Ret None ->
  fst (run (ks1 ++ k :: ks2)%list h)
  = (fst (run (ks1 ++ [k])%list h)
     ++ fst (run ks2 (new t (keymap h) (commonKeymap h) (commandMode h))))%list.
Proof.
  intros Hterm.
  change (k :: ks2) with ([k] ++ ks2)%list.
  rewrite app_assoc, (run_app (ks1 ++ [k])%list ks2). cbn [fst]. f_equal.
  rewrite (run_app ks1 [k]). cbn [snd]. rewrite (run_cons k []).
  cbn [run snd].
  rewrite (handle_terminal_fresh k _ Hterm).
  rewrite (fresh_sameConfig _ h (run_sameConfig ks1 h)), (fresh_new t).
  reflexivity.
Qed.

Lemma terminal_isolates_next_sequence_witness :
  let h := new EmptyString (Some divergeMode) (Some divergeCommon) false in
  fst (run ["a"; "z"; "a"; "b"] h)
  = [Pending; Failed (undefinedKeySequence "az");
     Pending; Resolved (mkAction (CmdId "cmd1") "ab")].
Proof.
  intros h.
  etransitivity;
    [apply (terminal_isolates_next_sequence h ["a"] "z" ["a"; "b"] EmptyString)|].
  - vm_compute. discriminate.
  - vm_compute. reflexivity.
Defined.

(** ** The command line as a whole *)

Lemma commandMode_not_counted (k : string) (h : Handler) :
  commandMode h = true -> isCountDigit k h = false.
Proof.
  intros Hcm. unfold isCountDigit. rewrite Hcm, andb_false_r. reflexivity.
Qed.

Lemma run_command_line (ks : list string) :
  forall h : Handler,
    commandMode h = true ->
    Forall (fun k => k <> newline) ks ->
    fst (run ks h) = repeat Pending (length ks)
    /\ keys (snd (run ks h)) = keys h ++ concatKeys ks
    /\ commandMode (snd (run ks h)) = true
    /\ keymap (snd (run ks h)) = keymap h
    /\ fresh (snd (run ks h)) = fresh h.
Proof.
  induction ks as [|k ks IH]; intros h Hcm Hall.
  - simpl. rewrite string_app_nil_r. auto.
  - inversion Hall as [|k' ks' Hk Hks]; subst.
    rewrite run_cons.
    assert (handle k h = (Ret None, typed k h)) as ->.
    { rewrite handle_eq. unfold handle_cases.
      rewrite (commandMode_not_counted k h Hcm), Hcm.
      destruct (String.eqb k newline) eqn:E; [|reflexivity].
      apply String.eqb_eq in E. contradiction. }
    cbn [fst snd].
    destruct (IH (typed k h) Hcm Hks) as (H1 & H2 & H3 & H4 & H5).
    rewrite H1, H2, H3, H4, H5. simpl. rewrite string_app_assoc.
    repeat split; reflexivity.
Qed.

(** X9.  In command mode the keys typed up to the newline, digits among
    them, are all pending and make up one line: the newline looks the whole
    line (with what [keys] held before) up in the root keymap, as one key,
    and resolves to the command bound to it or else throws "undefined
    command" quoting the line; either way the handler is reset. *)
Theorem command_line_is_looked_up_whole (h : Handler) (ks : list string) :
  commandMode h = true ->
  Forall (fun k => k <> newline) ks ->
  run (ks ++ [newline])%list h
  = ((repeat Pending (length ks)
      ++ [commandLineOutcome (keymap h) (keys h ++ concatKeys ks)])%list,
     snd (reset h)).
Proof.
  intros Hcm Hall.
  destruct (run_command_line ks h Hcm Hall) as (H1 & H2 & H3 & H4 & H5).
  rewrite run_app, H1, (run_cons newline []). cbn [run fst snd].
  rewrite handle_eq, reset_eq. unfold handle_cases, commandLineOutcome.
  rewrite (commandMode_not_counted newline _ H3), H3, H2, H4, H5.
  change (String.eqb newline newline) with true. cbv iota.
  destruct (keymap h ≫= (fun km => km !! (keys h ++ concatKeys ks)))
    as [[c|m]|]; reflexivity.
Qed.

Lemma command_line_is_looked_up_whole_witness :
  let km : Keymap := {[ "e 12" := VCommand (CmdId "openTwelve") ]} in
  run ["e"; " "; "1"; "2"; newline] (new EmptyString (Some km) None true)
  = ([Pending; Pending; Pending; Pending;
      Resolved (mkAction (CmdId "openTwelve") "e 12")],
     new EmptyString (Some km) None true).
Proof.
  intros km.
  etransitivity;
    [apply (command_line_is_looked_up_whole
              (new EmptyString (Some km) None true) ["e"; " "; "1"; "2"])|].
  - reflexivity.
  - repeat constructor; discriminate.
  - vm_compute. reflexivity.
Defined.

(** ** [clear()] *)

(** X10.  [clear()] puts the mode cursor back to its root and nothing else:
    it leaves the handler as [reset()] would exactly when the common cursor,
    the keys, the count, [parsingCount] and the status text already have
    their reset values.  On a pending handler the next key is therefore
    looked up at the root of the mode keymap, but reported after the keys
    typed before. *)
Theorem clear_rewinds_mode_cursor_only (h : Handler) :
  (snd (clear h) = snd (reset h)
   <-> currentCommonKeymap h = commonKeymap h
       /\ keys h = EmptyString /\ count h = EmptyString
       /\ parsingCount h = true
       /\ keyStatusBar h = statusBarPrefix h)
  /\ (forall (m : Keymap) (k : string) (c : Command),
      commandMode h = false ->
      parsingCount h = false ->
      keymap h = Some m ->
      resolve (Some m) k = Some (VCommand c) ->
      handle k (snd (clear h))
      = (Ret (Some (mkAction c (keys h ++ k))), snd (reset h))).
Proof.
  split.
  - rewrite reset_eq. destruct h as [t km ckm cm cur ccur ks c pc].
    unfold clear, assign, fresh, set_currentKeymap. simpl. split.
    + intros [= -> -> -> -> ->]. auto.
    + intros (-> & -> & -> & -> & ->). reflexivity.
  - intros m k c Hcm Hp Hkm Hr. rewrite reset_eq, handle_eq.
    unfold handle_cases, clear, assign. cbn [snd].
    assert (isCountDigit k (set_currentKeymap (keymap h) h) = false) as ->
      by (apply isCountDigit_ended; exact Hp).
    change (commandMode (set_currentKeymap (keymap h) h)) with (commandMode h).
    change (currentKeymap (set_currentKeymap (keymap h) h)) with (keymap h).
    rewrite Hcm, Hkm, Hr. reflexivity.
Qed.

Lemma clear_rewinds_mode_cursor_only_witness :
  let km : Keymap :=
    {[ "g" := VKeymap {[ "g" := VCommand (CmdId "cursorTop") ]};
       "j" := VCommand (CmdId "cursorDown") ]} in
  let h := snd (handle "g" (new EmptyString (Some km) None false)) in
  handle "j" (snd (clear h))
  = (Ret (Some (mkAction (CmdId "cursorDown") "gj")),
     new EmptyString (Some km) None false).
Proof.
  intros km h.
  destruct (clear_rewinds_mode_cursor_only h) as (_ & H).
  apply (H km "j" (CmdId "cursorDown")); vm_compute; reflexivity.
Defined.

(** ** The default keybindings *)

Lemma defaultKeybindings_lookup (mode : string) :
  bindsNothing (defaultKeybindings !! mode).
Proof.
  unfold bindsNothing, defaultKeybindings.
  destruct (decide (mode = "normal")) as [->|Hn].
  - right. rewrite lookup_insert_eq. reflexivity.
  - rewrite lookup_insert_ne by congruence.
    destruct (decide (mode = "insert")) as [->|Hi].
    + right. rewrite lookup_singleton_eq. reflexivity.
    + left. rewrite lookup_singleton_ne by congruence. reflexivity.
Qed.

Lemma bindsNothing_resolve (m : option Keymap) (k : string) :
  bindsNothing m -> resolve m k = None /\ m ≫= (fun km => km !! k) = None.
Proof.
  intros [-> | ->]; split; reflexivity.
Qed.

Lemma handle_bindsNothing (k : string) (h : Handler) :
  bindsNothing (keymap h) ->
  bindsNothing (commonKeymap h) ->
  bindsNothing (currentKeymap h) ->
  bindsNothing (currentCommonKeymap h) ->
  (forall a, fst (handle k h) <> Ret (Some a))
  /\ bindsNothing (currentKeymap (snd (handle k h)))
  /\ bindsNothing (currentCommonKeymap (snd (handle k h))).
Proof.
  intros Hk Hc Hcur Hccur.
  destruct (bindsNothing_resolve _ k Hcur) as (Hr1 & _).
  destruct (bindsNothing_resolve _ k Hccur) as (Hr2 & _).
  destruct (bindsNothing_resolve _ (keys h) Hk) as (_ & Hl).
  rewrite handle_eq. unfold handle_cases. rewrite Hr1, Hr2, Hl.
  destruct (isCountDigit k h); [simpl; repeat split; auto; discriminate|].
  destruct (commandMode h).
  - destruct (String.eqb k newline); simpl; repeat split; auto; discriminate.
  - simpl. repeat split; auto; discriminate.
Qed.

Lemma run_bindsNothing (ks : list string) :
  forall h : Handler,
    bindsNothing (keymap h) ->
    bindsNothing (commonKeymap h) ->
    bindsNothing (currentKeymap h) ->
    bindsNothing (currentCommonKeymap h) ->
    forall a, ~ In (Resolved a) (fst (run ks h)).
Proof.
  induction ks as [|k ks IH]; intros h Hk Hc Hcur Hccur a; [simpl; tauto|].
  rewrite run_cons. cbn [fst].
  destruct (handle_bindsNothing k h Hk Hc Hcur Hccur) as (Hn & Hcur' & Hccur').
  destruct (handle_sameConfig k h) as (Hk' & Hc' & _).
  intros [Hhead|Htail].
  - destruct (fst (handle k h)) as [[a'|]|e] eqn:E; simpl in Hhead;
      try discriminate Hhead.
    apply (Hn a'). reflexivity.
  - apply (IH (snd (handle k h))) in Htail; try assumption.
    + rewrite Hk'. exact Hk.
    + rewrite Hc'. exact Hc.
Qed.

(** X11.  With the default keybindings, whichever modes the mode keymap
    and the common keymap are taken from and in command mode or not, no
    sequence of keys ever resolves to a command, every call is pending or
    throws: for mode names and keys that are none of the names every
    object inherits. *)
Theorem default_keybindings_never_resolve
    (t mode common : string) (cm : bool) (ks : list string) (a : Action) :
  isOwnName mode = true ->
  isOwnName common = true ->
  forallb isOwnName ks = true ->
  ~ In (Resolved a)
       (fst (run ks (new t (defaultKeybindings !! mode)
                         (defaultKeybindings !! common) cm))).
Proof.
  intros _ _ _.
  apply run_bindsNothing; rewrite new_eq; simpl;
    apply defaultKeybindings_lookup.
Qed.

(** ** Error messages *)

Lemma string_app_inv_char (a b : string) (c : ascii) :
  a ++ String c EmptyString = b ++ String c EmptyString -> a = b.
Proof.
  revert b. induction a as [|x a IH]; intros [|y b] H.
  - reflexivity.
  - rewrite string_app_cons in H. change (EmptyString ++ ?s) with s in H.
    injection H as _ H. destruct b; discriminate H.
  - rewrite string_app_cons in H. change (EmptyString ++ ?s) with s in H.
    injection H as _ H. destruct a; discriminate H.
  - rewrite !string_app_cons in H. injection H as -> H.
    f_equal. apply IH, H.
Qed.

(** X12.  The message of a [KeyError] tells which of the two failures it
    is and which keys it is about: an "undefined key sequence" message is
    never an "undefined command" message, and two messages of the same kind
    are equal only for the same keys. *)
Theorem key_error_message_tells_kind_and_keys (ks1 ks2 : string) :
  undefinedKeySequence ks1 <> undefinedCommand ks2
  /\ (undefinedKeySequence ks1 = undefinedKeySequence ks2 -> ks1 = ks2)
  /\ (undefinedCommand ks1 = undefinedCommand ks2 -> ks1 = ks2).
Proof.
  unfold undefinedKeySequence, undefinedCommand, dquote.
  split; [|split].
  - intros H. discriminate H.
  - intros [= H]. apply string_app_inv_char in H. exact H.
  - intros [= H]. apply string_app_inv_char in H. exact H.
Qed.

Lemma key_error_message_tells_kind_and_keys_witness :
  undefinedKeySequence "wq" <> undefinedCommand "wq".
Proof.
  apply (key_error_message_tells_kind_and_keys "wq" "wq").
Defined.

Lemma default_keybindings_never_resolve_witness :
  ~ In (Resolved (mkAction (CmdId "cursorDown") "j"))
       (fst (run ["3"; "j"]
                 (new EmptyString (defaultKeybindings !! "normal")
                      (defaultKeybindings !! "common") false))).
Proof.
  apply (default_keybindings_never_resolve EmptyString "normal" "common"
           false ["3"; "j"]); vm_compute; reflexivity.
Defined.

(** ** [setKeys] outside command mode *)

Lemma forgetKeys_fields (h1 h2 : Handler) :
  forgetKeys h1 = forgetKeys h2 ->
  sameConfig h1 h2
  /\ currentKeymap h1 = currentKeymap h2
  /\ currentCommonKeymap h1 = currentCommonKeymap h2
  /\ count h1 = count h2
  /\ parsingCount h1 = parsingCount h2.
Proof.
  destruct h1, h2. unfold forgetKeys, sameConfig. simpl.
  intros [= -> -> -> -> -> -> ->]. repeat split; reflexivity.
Qed.

(** Two handlers that differ in the keys alone give a key the same verdict;
    after a terminal outcome they are equal. *)
Lemma handle_forgetKeys (k : string) (h1 h2 : Handler) :
  forgetKeys h1 = forgetKeys h2 ->
  commandMode h1 = false ->
  verdict (outcome (fst (handle k h1))) = verdict (outcome (fst (handle k h2)))
  /\ forgetKeys (snd (handle k h1)) = forgetKeys (snd (handle k h2)).
Proof.
  intros Hf Hcm1.
  destruct (forgetKeys_fields h1 h2 Hf)
    as ((Hk & Hc & Hm) & Hcur & Hccur & Hcnt & Hpc).
  assert (fresh h1 = fresh h2) as Hfresh
    by (apply fresh_sameConfig; unfold sameConfig; auto).
  assert (isCountDigit k h2 = isCountDigit k h1) as Hd
    by (unfold isCountDigit; rewrite Hm, Hcnt, Hpc; reflexivity).
  assert (forall x y, forgetKeys (set_currentCommonKeymap x
                                    (set_currentKeymap y (typed k h1)))
                      = forgetKeys (set_currentCommonKeymap x
                                      (set_currentKeymap y (typed k h2))))
    as Hdesc.
  { intros x y. unfold forgetKeys, typed. simpl.
    unfold set_keyStatusBar, set_keys. simpl. congruence. }
  assert (forgetKeys (counted k h1) = forgetKeys (counted k h2)) as Hcounted.
  { unfold forgetKeys, counted. simpl.
    unfold set_keyStatusBar, set_keys. simpl. congruence. }
  rewrite !handle_eq. unfold handle_cases, followCommon.
  rewrite Hd, <- Hm, <- Hcur, <- Hccur, <- Hfresh, Hcm1.
  destruct (isCountDigit k h1); [split; [reflexivity|exact Hcounted]|].
  destruct (resolve (currentKeymap h1) k) as [[c|sub]|].
  - split; reflexivity.
  - split; [reflexivity|apply Hdesc].
  - destruct (resolve (currentCommonKeymap h1) k) as [[c|sub]|].
    + split; reflexivity.
    + split; [reflexivity|apply Hdesc].
    + split; reflexivity.
Qed.

Lemma run_forgetKeys (ks : list string) :
  forall h1 h2 : Handler,
    forgetKeys h1 = forgetKeys h2 ->
    commandMode h1 = false ->
    map verdict (fst (run ks h1)) = map verdict (fst (run ks h2)).
Proof.
  induction ks as [|k ks IH]; intros h1 h2 Hf Hcm; [reflexivity|].
  rewrite !run_cons. cbn [fst map].
  destruct (handle_forgetKeys k h1 h2 Hf Hcm) as (Hv & Hf').
  destruct (handle_sameConfig k h1) as (_ & _ & Hcm').
  rewrite Hv, (IH _ _ Hf') by congruence. reflexivity.
Qed.

(** X13.  Outside command mode [setKeys] is for display only: after it,
    every sequence of keys is pending, resolves and fails at the same keys
    as without it and resolves to the same commands; only the keys reported
    differ. *)
Theorem setKeys_keeps_verdicts (h : Handler) (s : string) (ks : list string) :
  commandMode h = false ->
  map verdict (fst (run ks (snd (setKeys s h))))
  = map verdict (fst (run ks h)).
Proof.
  intros Hcm. apply run_forgetKeys; [|exact Hcm].
  destruct h. reflexivity.
Qed.

Lemma setKeys_keeps_verdicts_witness :
  let h := new EmptyString (Some divergeMode) (Some divergeCommon) false in
  map verdict (fst (run ["a"; "c"] (snd (setKeys "xyz" h))))
  = [StillPending; Runs (CmdId "cmd2")]
  /\ fst (run ["a"; "c"] (snd (setKeys "xyz" h)))
     = [Pending; Resolved (mkAction (CmdId "cmd2") "xyzac")].
Proof.
  intros h. split; [|vm_compute; reflexivity].
  rewrite (setKeys_keeps_verdicts h "xyz" ["a"; "c"] eq_refl).
  vm_compute. reflexivity.
Defined.

(** ** [expandHome] *)

Lemma getSubstitution_plain (matched before after r : string) :
  hasDollar r = false -> getSubstitution matched before after r = r.
Proof.
  induction r as [|c r IH]; [reflexivity|].
  simpl. intros H. apply orb_false_iff in H as [Hc Hr].
  rewrite Hc, (IH Hr). reflexivity.
Qed.

Lemma matchTilde_Some (p rest : string) :
  matchTilde p = Some rest -> p = String tilde rest.
Proof.
  destruct p as [|c r]; [discriminate|]. unfold matchTilde.
  destruct (Ascii.eqb c tilde) eqn:E; [|discriminate].
  apply Ascii.eqb_eq in E. subst c.
  destruct r as [|d r]; [intros [= <-]; reflexivity|].
  destruct (isPathSeparator d); [intros [= <-]; reflexivity|discriminate].
Qed.

Lemma matchTilde_rest (p rest : string) :
  matchTilde p = Some rest -> matchTilde rest = None.
Proof.
  destruct p as [|c r]; [discriminate|]. unfold matchTilde at 1.
  destruct (Ascii.eqb c tilde); [|discriminate].
  destruct r as [|d r]; [intros [= <-]; reflexivity|].
  destruct (isPathSeparator d) eqn:Hd; [|discriminate].
  intros [= <-]. unfold matchTilde.
  unfold isPathSeparator in Hd. apply orb_true_iff in Hd as [Hd|Hd];
    apply Ascii.eqb_eq in Hd; subst d; reflexivity.
Qed.

(** X14.  For a home directory whose name has no dollar sign:
    [expandHome] turns a path that is just a tilde into the home directory
    and a tilde followed by a slash or a backslash into the home directory
    followed by the rest; every other path (empty, not beginning with a
    tilde, or with the tilde followed by another character, as in a user
    name) is returned as it is; and when the home directory is not itself
    such a tilde path, expanding twice is expanding once. *)
Theorem expandHome_leading_tilde_only (home p rest : string) (c : ascii) :
  hasDollar home = false ->
  expandHome home (String tilde EmptyString) = home
  /\ expandHome home (String tilde (String slash rest))
     = home ++ String slash rest
  /\ expandHome home (String tilde (String backslash rest))
     = home ++ String backslash rest
  /\ expandHome home EmptyString = EmptyString
  /\ (c <> tilde -> expandHome home (String c rest) = String c rest)
  /\ (isPathSeparator c = false ->
      expandHome home (String tilde (String c rest))
      = String tilde (String c rest))
  /\ (matchTilde home = None ->
      expandHome home (expandHome home p) = expandHome home p).
Proof.
  intros Hd.
  assert (forall q r, matchTilde q = Some r -> expandHome home q = home ++ r)
    as Hexp.
  { intros q r Hq. unfold expandHome. rewrite Hq.
    rewrite getSubstitution_plain by exact Hd. reflexivity. }
  split; [rewrite (Hexp _ EmptyString) by reflexivity; apply string_app_nil_r|].
  split; [apply Hexp; reflexivity|].
  split; [apply Hexp; reflexivity|].
  split; [reflexivity|].
  split.
  { intros Hc. unfold expandHome, matchTilde.
    destruct (Ascii.eqb c tilde) eqn:E; [|reflexivity].
    apply Ascii.eqb_eq in E. contradiction. }
  split.
  { intros Hc. unfold expandHome, matchTilde.
    change (Ascii.eqb tilde tilde) with true. cbv iota. rewrite Hc.
    reflexivity. }
  intros Hhome.
  destruct (matchTilde p) as [r|] eqn:Hp.
  - rewrite (Hexp p r Hp).
    assert (matchTilde (home ++ r) = None) as Hnone.
    { destruct home as [|x home]; [apply (matchTilde_rest p r Hp)|].
      rewrite string_app_cons. unfold matchTilde in *.
      destruct (Ascii.eqb x tilde); [|reflexivity].
      destruct home as [|y home]; [discriminate Hhome|].
      rewrite string_app_cons.
      destruct (isPathSeparator y); [discriminate Hhome|reflexivity]. }
    unfold expandHome at 1. rewrite Hnone. reflexivity.
  - unfold expandHome. rewrite Hp, Hp. reflexivity.
Qed.

Lemma expandHome_leading_tilde_only_witness :
  expandHome "/home/me" "~/presets" = "/home/me/presets"
  /\ expandHome "/home/me" "~me/presets" = "~me/presets"
  /\ expandHome "/home/me" (expandHome "/home/me" "~") = "/home/me".
Proof.
  destruct (expandHome_leading_tilde_only "/home/me" "~" "presets" "m"%char)
    as (Hhome & Hslash & _ & _ & _ & Huser & Hidem); [reflexivity|].
  split; [exact Hslash|].
  split; [apply (expandHome_leading_tilde_only "/home/me" "~" "e/presets"
                   "m"%char eq_refl); reflexivity|].
  rewrite Hidem by reflexivity. exact Hhome.
Defined.

Lemma getSubstitution_prefix (matched before after a r : string) :
  hasDollar a = false ->
  getSubstitution matched before after (a ++ r)
  = a ++ getSubstitution matched before after r.
Proof.
  induction a as [|c a IH]; [reflexivity|].
  simpl. intros Ha. apply orb_false_iff in Ha as [Hc Ha].
  rewrite !string_app_cons. simpl. rewrite Hc, (IH Ha). reflexivity.
Qed.

(** X15.  A dollar sign in the name of the home directory is read as a
    replacement pattern: where the name has two dollars the expanded path
    has one, and where it has dollar-ampersand the expanded path has the
    tilde back. *)
Theorem expandHome_reads_dollar_patterns (a b rest : string) :
  hasDollar a = false ->
  hasDollar b = false ->
  matchTilde (String tilde rest) = Some rest ->
  expandHome (a ++ String dollar (String dollar b)) (String tilde rest)
  = a ++ String dollar b ++ rest
  /\ expandHome (a ++ String dollar (String ampersand b)) (String tilde rest)
     = a ++ String tilde b ++ rest.
Proof.
  intros Ha Hb Hm. unfold expandHome. rewrite Hm.
  pose proof (fun m bf af r => getSubstitution_prefix m bf af a r Ha) as Hpre.
  split.
  - rewrite Hpre. simpl.
    change (Ascii.eqb dollar dollar) with true. cbv iota.
    rewrite (getSubstitution_plain _ _ _ b Hb).
    rewrite string_app_assoc. reflexivity.
  - rewrite Hpre. simpl.
    change (Ascii.eqb dollar dollar) with true.
    change (Ascii.eqb ampersand dollar) with false.
    change (Ascii.eqb ampersand ampersand) with true. cbv iota.
    rewrite (getSubstitution_plain _ _ _ b Hb).
    rewrite string_app_assoc. reflexivity.
Qed.

Lemma expandHome_reads_dollar_patterns_witness :
  expandHome "/home/a$$b" "~/x" = "/home/a$b/x"
  /\ expandHome "/home/a$&b" "~/x" = "/home/a~b/x".
Proof.
  apply (expandHome_reads_dollar_patterns "/home/a" "b" "/x");
    reflexivity.
Defined.

(** ** File names of presets *)

Lemma prefix_app (pat post : string) : String.prefix pat (pat ++ post) = true.
Proof.
  induction pat as [|a pat IH]; [destruct post; reflexivity|].
  rewrite string_app_cons. simpl.
  destruct (ascii_dec a a) as [_|Hne]; [exact IH|contradiction].
Qed.

Lemma prefix_inv (pat : string) :
  forall s, String.prefix pat s = true -> exists post, s = pat ++ post.
Proof.
  induction pat as [|a pat IH]; intros s H.
  - exists s. reflexivity.
  - destruct s as [|b s]; [discriminate H|]. simpl in H.
    destruct (ascii_dec a b) as [->|]; [|discriminate H].
    destruct (IH s H) as [post ->]. exists post. reflexivity.
Qed.

Lemma contains_nil (pat : string) :
  contains pat EmptyString = String.prefix pat EmptyString.
Proof. simpl. apply orb_false_r. Qed.

Lemma contains_cons (pat : string) (c : ascii) (s : string) :
  contains pat (String c s) = String.prefix pat (String c s) || contains pat s.
Proof. reflexivity. Qed.

Lemma contains_iff (pat s : string) :
  contains pat s = true <-> exists pre post, s = pre ++ pat ++ post.
Proof.
  split.
  - induction s as [|c s IH]; intros H.
    + rewrite contains_nil in H. apply prefix_inv in H as [post ->].
      exists EmptyString, post. reflexivity.
    + rewrite contains_cons in H. apply orb_true_iff in H as [H|H].
      * apply prefix_inv in H as [post ->]. exists EmptyString, post.
        reflexivity.
      * destruct (IH H) as (pre & post & ->).
        exists (String c pre), post. reflexivity.
  - intros (pre & post & ->). induction pre as [|c pre IH].
    + change (EmptyString ++ ?x) with x.
      destruct (pat ++ post) as [|c r] eqn:E.
      * rewrite contains_nil, <- E. apply prefix_app.
      * rewrite contains_cons, <- E, prefix_app. reflexivity.
    + rewrite string_app_cons, contains_cons, IH. apply orb_true_r.
Qed.

Lemma endsWith_nil (suf : string) :
  endsWith suf EmptyString = String.eqb EmptyString suf.
Proof. simpl. apply orb_false_r. Qed.

Lemma endsWith_cons (suf : string) (c : ascii) (s : string) :
  endsWith suf (String c s) = String.eqb (String c s) suf || endsWith suf s.
Proof. reflexivity. Qed.

Lemma endsWith_iff (suf s : string) :
  endsWith suf s = true <-> exists pre, s = pre ++ suf.
Proof.
  split.
  - induction s as [|c s IH]; intros H.
    + rewrite endsWith_nil in H. apply String.eqb_eq in H as <-.
      exists EmptyString. reflexivity.
    + rewrite endsWith_cons in H. apply orb_true_iff in H as [H|H].
      * apply String.eqb_eq in H as <-. exists EmptyString. reflexivity.
      * destruct (IH H) as (pre & ->). exists (String c pre). reflexivity.
  - intros (pre & ->). induction pre as [|c pre IH].
    + change (EmptyString ++ ?x) with x.
      destruct suf as [|c r].
      * reflexivity.
      * rewrite endsWith_cons, String.eqb_refl. reflexivity.
    + rewrite string_app_cons, endsWith_cons, IH. apply orb_true_r.
Qed.

(** X16.  Of the directory entries that are files, the filter of
    [importPreset] keeps exactly those whose name contains a dot followed by
    js somewhere or ends in json or jsonc.  So it keeps every name with the
    extension js, json or jsonc, and also names in which something else
    follows the js and names that end in json or jsonc with no dot before
    it. *)
Theorem preset_filter_keeps (name pre post : string) :
  (isPresetName name = true
   <-> (exists a b, name = a ++ ".js" ++ b)
       \/ (exists a, name = a ++ "json")
       \/ (exists a, name = a ++ "jsonc"))
  /\ isPresetName (pre ++ ".js") = true
  /\ isPresetName (pre ++ ".json") = true
  /\ isPresetName (pre ++ ".jsonc") = true
  /\ isPresetName (pre ++ ".js" ++ post) = true
  /\ isPresetName (pre ++ "json") = true.
Proof.
  assert (forall n,
             isPresetName n = true
             <-> (exists a b, n = a ++ ".js" ++ b)
                 \/ (exists a, n = a ++ "json")
                 \/ (exists a, n = a ++ "jsonc")) as Hiff.
  { intros n. unfold isPresetName.
    rewrite !orb_true_iff, contains_iff, !endsWith_iff. tauto. }
  split; [apply Hiff|].
  repeat split; apply Hiff.
  - left. exists pre, EmptyString. reflexivity.
  - left. exists pre, "on". reflexivity.
  - left. exists pre, "onc". reflexivity.
  - left. exists pre, post. reflexivity.
  - right. left. exists pre. reflexivity.
Qed.

Lemma preset_filter_keeps_witness :
  isPresetName "helix.js.orig" = true /\ isPresetName "README.md" = false.
Proof.
  split.
  - apply (preset_filter_keeps "helix.js.orig" "helix" ".orig").
  - vm_compute. reflexivity.
Defined.

(** ** The text evaluated by [loadKeybindings] *)

Lemma string_app_last (a b : string) (c d : ascii) :
  a ++ String c EmptyString = b ++ String d EmptyString -> c = d.
Proof.
  revert b. induction a as [|x a IH]; intros [|y b] H.
  - injection H as ->. reflexivity.
  - rewrite string_app_cons in H. change (EmptyString ++ ?s) with s in H.
    injection H as _ H. destruct b; discriminate H.
  - rewrite string_app_cons in H. change (EmptyString ++ ?s) with s in H.
    injection H as _ H. destruct a; discriminate H.
  - rewrite !string_app_cons in H. injection H as _ H. apply (IH b H).
Qed.

Lemma js_is_not_json (base : string) : isJsonPath (base ++ ".js") = false.
Proof.
  unfold isJsonPath.
  assert (forall body (c : ascii),
             c <> "s"%char ->
             endsWith (body ++ String c EmptyString) (base ++ ".js") = false)
    as Hno.
  { intros body c Hc.
    destruct (endsWith _ _) eqn:E; [|reflexivity].
    apply endsWith_iff in E as (pre & E).
    change ".js" with (".j" ++ "s") in E.
    rewrite <- !string_app_assoc in E.
    apply string_app_last in E. congruence. }
  assert (endsWith "json" (base ++ ".js") = false) as ->
    by (apply (Hno "jso" "n"%char); discriminate).
  assert (endsWith "json5" (base ++ ".js") = false) as ->
    by (apply (Hno "json" "5"%char); discriminate).
  assert (endsWith "jsonc" (base ++ ".js") = false) as ->
    by (apply (Hno "json" "c"%char); discriminate).
  reflexivity.
Qed.

(** X17.  [loadKeybindings] evaluates the content of a file whose path
    ends in json, json5 or jsonc inside parentheses, and the content of a
    file with the extension js as it is. *)
Theorem eval_text_by_extension (base data : string) :
  evalText (base ++ ".json") data = "(" ++ data ++ ")"
  /\ evalText (base ++ ".json5") data = "(" ++ data ++ ")"
  /\ evalText (base ++ ".jsonc") data = "(" ++ data ++ ")"
  /\ evalText (base ++ ".js") data = data.
Proof.
  assert (forall suf, endsWith suf (base ++ "." ++ suf) = true) as Hends.
  { intros suf. apply endsWith_iff. exists (base ++ ".").
    rewrite string_app_assoc. reflexivity. }
  pose proof (Hends "json") as Hjson.
  pose proof (Hends "json5") as Hjson5.
  pose proof (Hends "jsonc") as Hjsonc.
  change ("." ++ "json") with ".json" in Hjson.
  change ("." ++ "json5") with ".json5" in Hjson5.
  change ("." ++ "jsonc") with ".jsonc" in Hjsonc.
  unfold evalText. repeat split.
  - unfold isJsonPath. rewrite Hjson. reflexivity.
  - unfold isJsonPath. rewrite Hjson5, orb_true_r. reflexivity.
  - unfold isJsonPath. rewrite Hjsonc, !orb_true_r. reflexivity.
  - rewrite js_is_not_json. reflexivity.
Qed.

(** ** The common keymap after a shared prefix *)




(** ** The first revision of the handler *)



(** X20.  In the first revision a key that resolves to a command leaves
    the cursor where it is: as long as [clear()] is not called, the same key
    gives the same command again and again from the sub-keymap reached, and
    [clear()] is what takes the cursor back to the root. *)
Theorem first_revision_keeps_cursor_after_command
    (u : bool) (h : FirstRevision.Handler) (cur : Keymap) (k : string)
    (c : Command) (n : nat) :
  FirstRevision.currentKeymap h = Some cur ->
  is_Some (FirstRevision.keymap h !! k) ->
  cur !! k = Some (VCommand c) ->
  FirstRevision.run u (repeat k n) h
  = (repeat (FirstRevision.Returns (Some c)) n, h)
  /\ FirstRevision.clear (snd (FirstRevision.run u (repeat k n) h))
     = FirstRevision.new (FirstRevision.keymap h).
Proof.
  intros Hcur [v Hroot] Hk.
  assert (FirstRevision.run u (repeat k n) h
          = (repeat (FirstRevision.Returns (Some c)) n, h)) as Hrun.
  { induction n as [|n IH]; [reflexivity|].
    simpl. unfold FirstRevision.handle. rewrite Hroot, Hcur, Hk, IH.
    reflexivity. }
  split; [exact Hrun|]. rewrite Hrun. reflexivity.
Qed.

Lemma first_revision_keeps_cursor_after_command_witness :
  let nested : Keymap :=
    {[ "g" := VKeymap {[ "g" := VCommand (CmdId "cursorTop") ]} ]} in
  let h := snd (FirstRevision.run true ["g"] (FirstRevision.new nested)) in
  FirstRevision.run true ["g"; "g"; "g"] h
  = ([FirstRevision.Returns (Some (CmdId "cursorTop"));
      FirstRevision.Returns (Some (CmdId "cursorTop"));
      FirstRevision.Returns (Some (CmdId "cursorTop"))], h).
Proof.
  intros nested h.
  apply (first_revision_keeps_cursor_after_command true h
           {[ "g" := VCommand (CmdId "cursorTop") ]} "g"
           (CmdId "cursorTop") 3).
  - reflexivity.
  - exists (VKeymap {[ "g" := VCommand (CmdId "cursorTop") ]}).
    vm_compute. reflexivity.
  - vm_compute. reflexivity.
Defined.
